(** * Reliable message relay of the Telegram support bot (src/bot.py)

    A shallow embedding of the SQLite-backed stores of [bot.py] (the
    [chats], [messages], [outbox] and [sent_messages] tables), of the
    [Chat] and [Outbox] operations, of the relay functions
    [forward_to_topic] / [forward_to_user], of the mapping log and of the
    outbox drainer [job_process_outbox], followed by the properties of the
    specification that are stated about them.

    Modelling conventions
    - A table with an [INTEGER PRIMARY KEY] chosen by the caller ([chats],
      keyed by [user_id]) is a [gmap Z row].  A table with an
      [AUTOINCREMENT] key ([messages], [outbox], [sent_messages]) is the
      list of its rows in insertion order together with the last key handed
      out (SQLite's [sqlite_sequence]), so keys are never reused.
    - A [TIMESTAMP] written from [datetime.now()] is the number of
      microseconds since 1970-01-01 00:00:00 on the wall clock, a [Z];
      [NULL] is [None].  [CURRENT_TIMESTAMP] column defaults are a second
      clock reading.  Every operation that reads the clock takes the
      reading as an argument.  A reading of [datetime.now()] lies far inside
      the range of [datetime]: adding one of the program's fixed offsets (an
      hour, 14 days) to it never leaves the range.  An offset chosen by the
      operator can, and [Chat.snooze] raises [OverflowError] then.
    - [TEXT] columns are strings, [INTEGER] columns are [Z].  A string is a
      sequence of characters, one [ascii] per character (not the bytes of
      an encoding), so slicing cuts characters as in Python; text with code
      points above 255 is outside the model.
    - A SELECT with ORDER BY leaves the order of rows that tie on the sort
      key open; the model returns them in one such order, and no property
      below depends on it.
    - Every operation opens a connection, runs its statements and commits:
      it is a function from database to database.  Storage failures are
      not modelled.
    - A transport call ([bot.copy_message]) either returns the identifier of
      the delivered message or raises; its outcome is an argument. *)

From Stdlib Require Import ZArith QArith Lia Lqa.
From stdpp Require Import base option list sorting gmap strings.

Local Open Scope string_scope.
Local Open Scope list_scope.
Local Open Scope Z_scope.

(** ** Clock *)

Record Clock := {
  now : Z;                (* datetime.now(), microseconds *)
  current_timestamp : Z   (* SQLite CURRENT_TIMESTAMP, seconds *)
}.

Definition microseconds_per_second : Z := 1000000.

(** [timedelta(seconds=s)] and [timedelta(hours=h)] in microseconds. *)
Definition timedelta_seconds (s : Z) : Z := s * microseconds_per_second.
Definition timedelta_hours (h : Z) : Z := h * 3600 * microseconds_per_second.

(** [timedelta(hours=h)] raises [OverflowError] unless the number of days
    of the result, [h // 24], has magnitude at most 999999999. *)
Definition MAX_DELTA_DAYS : Z := 999999999.

Definition timedelta_in_range (hours : Z) : Prop :=
  - MAX_DELTA_DAYS <= hours / 24 <= MAX_DELTA_DAYS.

(** [datetime.min] (0001-01-01 00:00:00) and [datetime.max] (9999-12-31
    23:59:59.999999); [datetime + timedelta] raises [OverflowError] when
    the sum lies outside. *)
Definition datetime_min : Z := - 62135596800 * microseconds_per_second.
Definition datetime_max : Z := 253402300800 * microseconds_per_second - 1.

Definition datetime_in_range (t : Z) : Prop := datetime_min <= t <= datetime_max.

#[global] Instance timedelta_in_range_dec h : Decision (timedelta_in_range h).
Proof. unfold timedelta_in_range. apply _. Defined.

#[global] Instance datetime_in_range_dec t : Decision (datetime_in_range t).
Proof. unfold datetime_in_range. apply _. Defined.

(** ** Configuration constants *)

Definition FOLLOWUP_HOURS_NORMAL : Z := 24.
Definition FOLLOWUP_HOURS_VIP : Z := 12.
Definition SUPPORT_GROUP_ID : Z := -1003870321136.

(** ** Python helpers *)

(** [s[:n]] on a string. *)
Definition py_prefix (n : nat) (s : string) : string := String.substring 0 n s.

(** Truthiness of an optional string attribute and Python's [a or b]. *)
Definition truthy (o : option string) : bool :=
  match o with
  | Some s => negb (String.eqb s "")
  | None => false
  end.

Definition or_else (o : option string) (d : string) : string :=
  match o with
  | Some s => if String.eqb s "" then d else s
  | None => d
  end.

(** [str(x)] of an optional string attribute. *)
Definition py_str (o : option string) : string :=
  match o with
  | Some s => s
  | None => "None"
  end.

(** [l[i]] on a list: negative indices count from the end, an index out of
    range raises [IndexError] ([None]). *)
Definition py_getitem {A} (l : list A) (i : Z) : option A :=
  let n := Z.of_nat (length l) in
  if 0 <=? i then l !! Z.to_nat i
  else if -n <=? i then l !! Z.to_nat (n + i)
  else None.

(** ** Rows of the four tables *)

Module ChatRow.
Record t := mk {
  username : string;
  first_name : string;
  last_name : string;
  topic_id : Z;
  status : string;
  priority : string;
  unread_count : Z;
  last_message_preview : option string;
  last_message_type : option string;
  last_message_at : option Z;
  last_reply_at : option Z;
  created_at : Z;
  is_archived : Z;
  snoozed_until : option Z;
  followup_stage : Z;
  followup_done : Z
}.
End ChatRow.

Module MessageRow.
Record t := mk {
  id : Z;
  user_id : Z;
  direction : string;
  msg_type : string;
  content : string;
  file_id : string;
  telegram_msg_id : option Z;
  created_at : Z
}.
End MessageRow.

Module OutboxRow.
Record t := mk {
  id : Z;
  direction : string;
  from_chat_id : Z;
  to_chat_id : Z;
  message_id : Z;
  topic_id : option Z;
  retry_count : Z;
  next_retry_at : option Z;
  status : string;
  error : option string;
  created_at : Z
}.
End OutboxRow.

Module SentRow.
Record t := mk {
  id : Z;
  user_id : Z;
  topic_msg_id : Z;
  user_msg_id : Z;
  created_at : Z
}.
End SentRow.

(** A chat row as [dict(row)] returns it: the key together with the other
    columns. *)
Abbreviation ChatDict := (Z * ChatRow.t)%type.

(** ** The database *)

Record DB := mkDB {
  chats : gmap Z ChatRow.t;
  messages : list MessageRow.t;
  seq_messages : Z;
  outbox : list OutboxRow.t;
  seq_outbox : Z;
  sent_messages : list SentRow.t;
  seq_sent_messages : Z
}.

(** [init_db] on a new file: empty tables. *)
Definition init_db : DB := mkDB ∅ [] 0 [] 0 [] 0.

Definition with_chats (f : gmap Z ChatRow.t → gmap Z ChatRow.t) (db : DB) : DB :=
  mkDB (f (chats db)) (messages db) (seq_messages db) (outbox db) (seq_outbox db)
       (sent_messages db) (seq_sent_messages db).

Definition with_outbox (f : list OutboxRow.t → list OutboxRow.t) (db : DB) : DB :=
  mkDB (chats db) (messages db) (seq_messages db) (f (outbox db)) (seq_outbox db)
       (sent_messages db) (seq_sent_messages db).

(** ** Chat manager (class [Chat]) *)

Module Chat.
Import ChatRow.

Definition get (user_id : Z) (db : DB) : option ChatDict :=
  (λ r, (user_id, r)) <$> chats db !! user_id.

(** A scan of [chats] without ORDER BY visits the rows in key order. *)
Definition rowid_order (a b : ChatDict) : Prop := a.1 <= b.1.

#[global] Instance rowid_order_dec a b : Decision (rowid_order a b).
Proof. unfold rowid_order. apply _. Defined.

Definition scan (db : DB) : list ChatDict :=
  merge_sort rowid_order (map_to_list (chats db)).

(** [SELECT * FROM chats WHERE topic_id=?] with [fetchone()]. *)
Definition get_by_topic (topic : Z) (db : DB) : option ChatDict :=
  head (filter (λ c : ChatDict, topic_id c.2 = topic) (scan db)).

(** The row inserted by [create] when the user has no row yet; the columns
    that the INSERT does not name take their declared defaults. *)
Definition create_insert (clk : Clock) (username first_name last_name : string)
    (topic_id : Z) : t :=
  mk username first_name last_name topic_id "unread" "normal" 0
     None None (Some (now clk)) None (current_timestamp clk) 0 None 0 0.

(** The [ON CONFLICT(user_id) DO UPDATE SET] branch of [create]. *)
Definition create_update (username first_name last_name : string) (topic_id : Z)
    (r : t) : t :=
  mk username first_name last_name topic_id "unread" (priority r) 1
     (last_message_preview r) (last_message_type r) (last_message_at r)
     (last_reply_at r) (created_at r) 0 (snoozed_until r)
     (followup_stage r) (followup_done r).

Definition create (clk : Clock) (user_id : Z) (username first_name last_name : string)
    (topic_id : Z) : DB → DB :=
  with_chats (partial_alter (λ o,
    match o with
    | None => Some (create_insert clk username first_name last_name topic_id)
    | Some r => Some (create_update username first_name last_name topic_id r)
    end) user_id).

Definition new_message_row (clk : Clock) (preview msg_type : string) (r : t) : t :=
  mk (username r) (first_name r) (last_name r) (topic_id r)
     "unread" (priority r) (unread_count r + 1)
     (Some (py_prefix 100 preview)) (Some msg_type) (Some (now clk))
     (last_reply_at r) (created_at r) (is_archived r)
     None 0 0.

Definition new_message (clk : Clock) (user_id : Z) (preview msg_type : string) : DB → DB :=
  with_chats (alter (new_message_row clk preview msg_type) user_id).

Definition mark_answered_row (clk : Clock) (r : t) : t :=
  mk (username r) (first_name r) (last_name r) (topic_id r)
     "answered" (priority r) 0
     (last_message_preview r) (last_message_type r) (last_message_at r)
     (Some (now clk)) (created_at r) (is_archived r)
     (snoozed_until r) 0 (followup_done r).

Definition mark_answered (clk : Clock) (user_id : Z) : DB → DB :=
  with_chats (alter (mark_answered_row clk) user_id).

Definition mark_read_row (r : t) : t :=
  mk (username r) (first_name r) (last_name r) (topic_id r)
     (if String.eqb (status r) "unread" then "read" else status r)
     (priority r) 0
     (last_message_preview r) (last_message_type r) (last_message_at r)
     (last_reply_at r) (created_at r) (is_archived r)
     (snoozed_until r) (followup_stage r) (followup_done r).

Definition mark_read (user_id : Z) : DB → DB :=
  with_chats (alter mark_read_row user_id).

Definition mark_unread_row (r : t) : t :=
  mk (username r) (first_name r) (last_name r) (topic_id r)
     "unread" (priority r)
     (if unread_count r =? 0 then 1 else unread_count r)
     (last_message_preview r) (last_message_type r) (last_message_at r)
     (last_reply_at r) (created_at r) (is_archived r)
     (snoozed_until r) (followup_stage r) (followup_done r).

Definition mark_unread (user_id : Z) : DB → DB :=
  with_chats (alter mark_unread_row user_id).

Definition set_priority_row (p : string) (r : t) : t :=
  mk (username r) (first_name r) (last_name r) (topic_id r)
     (status r) p (unread_count r)
     (last_message_preview r) (last_message_type r) (last_message_at r)
     (last_reply_at r) (created_at r) (is_archived r)
     (snoozed_until r) (followup_stage r) (followup_done r).

Definition set_priority (user_id : Z) (p : string) : DB → DB :=
  with_chats (alter (set_priority_row p) user_id).

Definition archive_row (r : t) : t :=
  mk (username r) (first_name r) (last_name r) (topic_id r)
     "closed" (priority r) (unread_count r)
     (last_message_preview r) (last_message_type r) (last_message_at r)
     (last_reply_at r) (created_at r) 1
     (snoozed_until r) (followup_stage r) (followup_done r).

Definition archive (user_id : Z) : DB → DB :=
  with_chats (alter archive_row user_id).

Definition snooze_row (until : Z) (r : t) : t :=
  mk (username r) (first_name r) (last_name r) (topic_id r)
     (status r) (priority r) (unread_count r)
     (last_message_preview r) (last_message_type r) (last_message_at r)
     (last_reply_at r) (created_at r) (is_archived r)
     (Some until) (followup_stage r) (followup_done r).

(** [until = datetime.now() + timedelta(hours=hours)] is computed before
    the UPDATE; when it raises [OverflowError] ([None]) nothing is
    written. *)
Definition snooze (clk : Clock) (user_id : Z) (hours : Z) (db : DB) : option DB :=
  if decide (timedelta_in_range hours) then
    let until := now clk + timedelta_hours hours in
    if decide (datetime_in_range until)
    then Some (with_chats (alter (snooze_row until) user_id) db)
    else None
  else None.

Definition done_followup_row (r : t) : t :=
  mk (username r) (first_name r) (last_name r) (topic_id r)
     (status r) (priority r) (unread_count r)
     (last_message_preview r) (last_message_type r) (last_message_at r)
     (last_reply_at r) (created_at r) (is_archived r)
     (snoozed_until r) (followup_stage r) 1.

Definition done_followup (user_id : Z) : DB → DB :=
  with_chats (alter done_followup_row user_id).

(** *** Read-side views *)

(** [snoozed_until IS NULL OR snoozed_until < ?] *)
Definition snooze_elapsed (now_ : Z) (r : t) : Prop :=
  match snoozed_until r with
  | None => True
  | Some s => s < now_
  end.

#[global] Instance snooze_elapsed_dec now_ r : Decision (snooze_elapsed now_ r).
Proof. unfold snooze_elapsed. destruct (snoozed_until r); apply _. Defined.

(** [CASE priority WHEN 'urgent' THEN 0 WHEN 'vip' THEN 1 ELSE 2 END] *)
Definition priority_rank (p : string) : Z :=
  if String.eqb p "urgent" then 0 else if String.eqb p "vip" then 1 else 2.

(** SQLite orders [NULL] before every value. *)
Definition ts_le (a b : option Z) : Prop :=
  match a, b with
  | None, _ => True
  | Some _, None => False
  | Some x, Some y => x <= y
  end.

#[global] Instance ts_le_dec a b : Decision (ts_le a b).
Proof. unfold ts_le. destruct a, b; apply _. Defined.

(** [ORDER BY CASE priority ... END, last_message_at DESC] *)
Definition unread_order (a b : ChatDict) : Prop :=
  priority_rank (priority a.2) < priority_rank (priority b.2)
  ∨ (priority_rank (priority a.2) = priority_rank (priority b.2)
     ∧ ts_le (last_message_at b.2) (last_message_at a.2)).

#[global] Instance unread_order_dec a b : Decision (unread_order a b).
Proof. unfold unread_order. apply _. Defined.

Definition unread_where (now_ : Z) (c : ChatDict) : Prop :=
  status c.2 = "unread" ∧ is_archived c.2 = 0 ∧ snooze_elapsed now_ c.2.

#[global] Instance unread_where_dec now_ c : Decision (unread_where now_ c).
Proof. unfold unread_where. apply _. Defined.

Definition get_unread (clk : Clock) (db : DB) : list ChatDict :=
  merge_sort unread_order
    (filter (unread_where (now clk)) (map_to_list (chats db))).

(** [ORDER BY last_message_at DESC] *)
Definition active_order (a b : ChatDict) : Prop :=
  ts_le (last_message_at b.2) (last_message_at a.2).

#[global] Instance active_order_dec a b : Decision (active_order a b).
Proof. unfold active_order. apply _. Defined.


(** *** Follow-up scheduler ([get_followups_due]) *)

Record Followups := mkFollowups {
  due : list ChatDict;
  urgent : list ChatDict;
  overdue : list ChatDict
}.

Inductive Bucket := Due | Urgent | Overdue.

Definition followup_where (c : ChatDict) : Prop :=
  status c.2 = "answered" ∧ is_archived c.2 = 0 ∧ followup_done c.2 = 0
  ∧ is_Some (last_reply_at c.2).

#[global] Instance followup_where_dec c : Decision (followup_where c).
Proof. unfold followup_where. apply _. Defined.

(** [ORDER BY last_reply_at ASC] *)
Definition followup_order (a b : ChatDict) : Prop :=
  ts_le (last_reply_at a.2) (last_reply_at b.2).

#[global] Instance followup_order_dec a b : Decision (followup_order a b).
Proof. unfold followup_order. apply _. Defined.

(** [(now - chat['last_reply_at']).total_seconds() / 3600].  The source
    computes it in double precision; the quotient is kept exact here.  The
    three comparisons below give the same answers either way: each bound
    times 3600 is an integer number of seconds, a double represents it
    exactly, and correctly rounded division is monotone and resolves one
    microsecond at that magnitude. *)
Definition hours_since (now_ last_reply : Z) : Q :=
  (inject_Z (now_ - last_reply) / inject_Z microseconds_per_second) / 3600.

Definition threshold (r : t) : Z :=
  if String.eqb (priority r) "vip" then FOLLOWUP_HOURS_VIP else FOLLOWUP_HOURS_NORMAL.

(** The [if] / [elif] chain of the loop body. *)
Definition bucket_of (now_ : Z) (r : t) (last_reply : Z) : option Bucket :=
  let h := hours_since now_ last_reply in
  let th := inject_Z (threshold r) in
  if Qle_bool (th * 3) h then Some Overdue
  else if Qle_bool (th * (3 # 2)) h then Some Urgent
  else if Qle_bool th h then Some Due
  else None.

(** One iteration of the loop; a row without [last_reply_at] never reaches
    it (the WHERE clause drops it). *)
Definition followups_step (now_ : Z) (results : Followups) (chat : ChatDict) : Followups :=
  match last_reply_at chat.2 with
  | None => results
  | Some t =>
    match bucket_of now_ chat.2 t with
    | Some Overdue =>
        mkFollowups (due results) (urgent results) (overdue results ++ [chat])
    | Some Urgent =>
        mkFollowups (due results) (urgent results ++ [chat]) (overdue results)
    | Some Due =>
        mkFollowups (due results ++ [chat]) (urgent results) (overdue results)
    | None => results
    end
  end.

#[global] Instance Bucket_eq_dec : EqDecision Bucket.
Proof. solve_decision. Defined.

(** The bucket the loop body picks for a fetched row, if any. *)
Definition bucket_of_chat (now_ : Z) (chat : ChatDict) : option Bucket :=
  t ← last_reply_at chat.2; bucket_of now_ chat.2 t.

Definition followups_rows (db : DB) : list ChatDict :=
  merge_sort followup_order (filter followup_where (map_to_list (chats db))).

Definition get_followups_due (clk : Clock) (db : DB) : Followups :=
  foldl (followups_step (now clk)) (mkFollowups [] [] []) (followups_rows db).
End Chat.

(** ** Outbox (class [Outbox]) *)

Module Outbox.
Import OutboxRow.

Definition add (clk : Clock) (direction : string) (from_chat_id to_chat_id message_id : Z)
    (topic_id : option Z) (db : DB) : DB :=
  let new_id := seq_outbox db + 1 in
  let row := mk new_id direction from_chat_id to_chat_id message_id topic_id
                0 (Some (now clk)) "pending" None (current_timestamp clk) in
  mkDB (chats db) (messages db) (seq_messages db)
       (outbox db ++ [row]) new_id
       (sent_messages db) (seq_sent_messages db).

(** [status='pending' AND next_retry_at <= ?]; a comparison with [NULL]
    is not true. *)
Definition pending_where (now_ : Z) (r : t) : Prop :=
  status r = "pending"
  ∧ match next_retry_at r with Some n => n <= now_ | None => False end.

#[global] Instance pending_where_dec now_ r : Decision (pending_where now_ r).
Proof. unfold pending_where. destruct (next_retry_at r); apply _. Defined.

(** [ORDER BY created_at ASC] *)
Definition pending_order (a b : t) : Prop := created_at a <= created_at b.

#[global] Instance pending_order_dec a b : Decision (pending_order a b).
Proof. unfold pending_order. apply _. Defined.

Definition get_pending (clk : Clock) (db : DB) : list t :=
  take 20 (merge_sort pending_order (filter (pending_where (now clk)) (outbox db))).

(** [UPDATE outbox SET ... WHERE id=?] *)
Definition update_where_id (outbox_id : Z) (f : t → t) : list t → list t :=
  fmap (λ r, if decide (id r = outbox_id) then f r else r).

Definition set_sent (r : t) : t :=
  mk (id r) (direction r) (from_chat_id r) (to_chat_id r) (message_id r) (topic_id r)
     (retry_count r) (next_retry_at r) "sent" (error r) (created_at r).

Definition mark_sent (outbox_id : Z) : DB → DB :=
  with_outbox (update_where_id outbox_id set_sent).

Definition delays : list Z := [5; 15; 45; 120; 300; 900; 3600].

(** [SELECT ... FROM outbox WHERE id=?] with [fetchone()]. *)
Definition select_by_id (outbox_id : Z) (db : DB) : option t :=
  List.find (λ r, bool_decide (id r = outbox_id)) (outbox db).

(** [row[0] + 1 if row else 1] on the selected [retry_count]. *)
Definition next_retry_count (outbox_id : Z) (db : DB) : Z :=
  match select_by_id outbox_id db with
  | Some row => retry_count row + 1
  | None => 1
  end.

(** [delays[min(retry_count - 1, len(delays) - 1)]] *)
Definition delay_for (retry_count : Z) : option Z :=
  py_getitem delays (Z.min (retry_count - 1) (Z.of_nat (length delays) - 1)).

Definition set_failed (err : string) (retry_count : Z) (r : t) : t :=
  mk (id r) (direction r) (from_chat_id r) (to_chat_id r) (message_id r) (topic_id r)
     retry_count (next_retry_at r) "failed" (Some err) (created_at r).

Definition set_retry (err : string) (retry_count next_retry : Z) (r : t) : t :=
  mk (id r) (direction r) (from_chat_id r) (to_chat_id r) (message_id r) (topic_id r)
     retry_count (Some next_retry) (status r) (Some err) (created_at r).

(** [None] is the [IndexError] of the table lookup, raised before any
    UPDATE is issued. *)
Definition mark_failed (clk : Clock) (outbox_id : Z) (err : string) (db : DB) : option DB :=
  let retry_count := next_retry_count outbox_id db in
  delay ← delay_for retry_count;
  let next_retry := now clk + timedelta_seconds delay in
  if 10 <=? retry_count
  then Some (with_outbox (update_where_id outbox_id (set_failed err retry_count)) db)
  else Some (with_outbox (update_where_id outbox_id (set_retry err retry_count next_retry)) db).
End Outbox.

(** ** Message log *)

Definition log_msg (clk : Clock) (user_id : Z) (direction msg_type content file_id : string)
    (telegram_msg_id : option Z) (db : DB) : DB :=
  let new_id := seq_messages db + 1 in
  let row := MessageRow.mk new_id user_id direction msg_type
               (if String.eqb content "" then "" else py_prefix 500 content)
               file_id telegram_msg_id (current_timestamp clk) in
  mkDB (chats db) (messages db ++ [row]) new_id (outbox db) (seq_outbox db)
       (sent_messages db) (seq_sent_messages db).

(** ** Mapping log *)

(** [ORDER BY id DESC] *)
Definition id_desc (a b : Z) : Prop := b <= a.

#[global] Instance id_desc_dec a b : Decision (id_desc a b).
Proof. unfold id_desc. apply _. Defined.

(** [SELECT id FROM sent_messages WHERE user_id=? ORDER BY id DESC LIMIT 100] *)
Definition newest_ids (user_id : Z) (rows : list SentRow.t) : list Z :=
  take 100 (merge_sort id_desc
              (SentRow.id <$> filter (λ r, SentRow.user_id r = user_id) rows)).

(** [DELETE FROM sent_messages WHERE user_id=? AND id NOT IN (...)] *)
Definition prune (user_id : Z) (rows : list SentRow.t) : list SentRow.t :=
  let keep := newest_ids user_id rows in
  filter (λ r, ¬ (SentRow.user_id r = user_id ∧ SentRow.id r ∉ keep)) rows.

Definition save_message_mapping (clk : Clock) (user_id topic_msg_id user_msg_id : Z)
    (db : DB) : DB :=
  let new_id := seq_sent_messages db + 1 in
  let row := SentRow.mk new_id user_id topic_msg_id user_msg_id (current_timestamp clk) in
  mkDB (chats db) (messages db) (seq_messages db) (outbox db) (seq_outbox db)
       (prune user_id (sent_messages db ++ [row])) new_id.

(** [fetchone()] of the SELECT: the first matching row in key order. *)
Definition get_user_msg_id (user_id topic_msg_id : Z) (db : DB) : option Z :=
  SentRow.user_msg_id <$>
    List.find (λ r, bool_decide (SentRow.user_id r = user_id
                                 ∧ SentRow.topic_msg_id r = topic_msg_id))
              (sent_messages db).

(** ** Relay engine *)

(** The attributes of the object passed as [msg] that the relay reads.
    [content_type] is [None] when the object has no such attribute, which
    is the case for the transport library's own [Message] (reading it
    raises [AttributeError]); otherwise it holds the attribute's value. *)
Record Message := {
  chat_id : Z;
  message_id : Z;
  text : option string;
  caption : option string;
  content_type : option (option string)
}.

(** Outcome of [bot.copy_message]. *)
Inductive CopyResult :=
  | Sent (sent_message_id : Z)
  | Raised (err : string).

(** [msg.text or msg.caption or f"[{msg.content_type}]"], for a message
    whose [content_type] attribute has the value [ct]. *)
Definition preview_of (msg : Message) (ct : option string) : string :=
  if truthy (text msg) then py_str (text msg)
  else if truthy (caption msg) then py_str (caption msg)
  else ("[" ++ py_str ct ++ "]")%string.

(** Both relay functions run their body in [try]; whatever it raises is
    caught by [except Exception], which adds the outbox entry.  The body
    raises when [copy_message] raises and, after a successful copy, when the
    arguments of [log_msg] are evaluated for a [msg] without [content_type]:
    the message is delivered then, and queued all the same. *)
Definition forward_to_topic (transport : CopyResult) (clk : Clock) (msg : Message)
    (topic_id user_id : Z) (db : DB) : DB * bool :=
  let queued :=
    (Outbox.add clk "to_topic" (chat_id msg) SUPPORT_GROUP_ID (message_id msg)
       (Some topic_id) db, false) in
  match transport with
  | Sent sent_id =>
      match content_type msg with
      | Some ct =>
          let preview := preview_of msg ct in
          let db1 := log_msg clk user_id "in" (or_else ct "unknown")
                       (py_prefix 100 preview) "" (Some sent_id) db in
          let db2 := Chat.new_message clk user_id (py_prefix 100 preview)
                       (or_else ct "unknown") db1 in
          (db2, true)
      | None => queued
      end
  | Raised _ => queued
  end.

(** In [forward_to_user] the mapping is saved before [content_type] is
    read, so it stays recorded when that read raises. *)
Definition forward_to_user (transport : CopyResult) (clk : Clock) (msg : Message)
    (user_id topic_id : Z) (db : DB) : DB * option Z :=
  match transport with
  | Sent sent_id =>
      let db1 := save_message_mapping clk user_id (message_id msg) sent_id db in
      match content_type msg with
      | Some ct =>
          let preview := preview_of msg ct in
          let db2 := log_msg clk user_id "out" (or_else ct "unknown")
                       (py_prefix 100 preview) "" (Some sent_id) db1 in
          let db3 := Chat.mark_answered clk user_id db2 in
          (db3, Some sent_id)
      | None =>
          (Outbox.add clk "to_user" (chat_id msg) user_id (message_id msg)
             (Some topic_id) db1, None)
      end
  | Raised _ =>
      (Outbox.add clk "to_user" (chat_id msg) user_id (message_id msg)
         (Some topic_id) db, None)
  end.

(** ** Outbox drainer *)

(** What one tick meets: the outcome of the transport call made for an
    item, and the clock reading when its failure is recorded. *)
Record World := {
  copy_message : OutboxRow.t → CopyResult;
  clock_at : OutboxRow.t → Clock
}.

(** The loop of [job_process_outbox].  An item whose direction is neither
    [to_topic] nor [to_user] makes no transport call and is marked sent.  An
    exception raised inside the [except] handler leaves the job. *)
Fixpoint process_items (w : World) (pending : list OutboxRow.t) (db : DB) : DB :=
  match pending with
  | [] => db
  | item :: rest =>
      let outcome :=
        if String.eqb (OutboxRow.direction item) "to_topic" then copy_message w item
        else if String.eqb (OutboxRow.direction item) "to_user" then copy_message w item
        else Sent 0 in
      match outcome with
      | Sent _ => process_items w rest (Outbox.mark_sent (OutboxRow.id item) db)
      | Raised e =>
          match Outbox.mark_failed (clock_at w item) (OutboxRow.id item) e db with
          | Some db' => process_items w rest db'
          | None => db
          end
      end
  end.

Definition job_process_outbox (clk : Clock) (w : World) (db : DB) : DB :=
  process_items w (Outbox.get_pending clk db) db.

(** ** Histories of store operations *)

(** Every statement of the program that writes to one of the four tables is
    one of these operations ([job_archive] issues the UPDATE of
    [Chat.archive]). *)
Inductive Op :=
  | OpCreate (clk : Clock) (user_id : Z) (username first_name last_name : string) (topic_id : Z)
  | OpNewMessage (clk : Clock) (user_id : Z) (preview msg_type : string)
  | OpMarkAnswered (clk : Clock) (user_id : Z)
  | OpMarkRead (user_id : Z)
  | OpMarkUnread (user_id : Z)
  | OpSetPriority (user_id : Z) (p : string)
  | OpArchive (user_id : Z)
  | OpSnooze (clk : Clock) (user_id : Z) (hours : Z)
  | OpDoneFollowup (user_id : Z)
  | OpLogMsg (clk : Clock) (user_id : Z) (direction msg_type content file_id : string)
             (telegram_msg_id : option Z)
  | OpOutboxAdd (clk : Clock) (direction : string) (from_chat_id to_chat_id message_id : Z)
                (topic_id : option Z)
  | OpMarkSent (outbox_id : Z)
  | OpMarkFailed (clk : Clock) (outbox_id : Z) (err : string)
  | OpSaveMapping (clk : Clock) (user_id topic_msg_id user_msg_id : Z).

Definition exec (op : Op) (db : DB) : DB :=
  match op with
  | OpCreate clk u un fn ln tid => Chat.create clk u un fn ln tid db
  | OpNewMessage clk u p ty => Chat.new_message clk u p ty db
  | OpMarkAnswered clk u => Chat.mark_answered clk u db
  | OpMarkRead u => Chat.mark_read u db
  | OpMarkUnread u => Chat.mark_unread u db
  | OpSetPriority u p => Chat.set_priority u p db
  | OpArchive u => Chat.archive u db
  | OpSnooze clk u h => default db (Chat.snooze clk u h db)
  | OpDoneFollowup u => Chat.done_followup u db
  | OpLogMsg clk u d ty c f tm => log_msg clk u d ty c f tm db
  | OpOutboxAdd clk d fc tc m tid => Outbox.add clk d fc tc m tid db
  | OpMarkSent i => Outbox.mark_sent i db
  | OpMarkFailed clk i e => default db (Outbox.mark_failed clk i e db)
  | OpSaveMapping clk u t m => save_message_mapping clk u t m db
  end.

(** The databases the program can be in: [init_db] followed by operations. *)
Inductive reachable : DB → Prop :=
  | reachable_init : reachable init_db
  | reachable_exec op db : reachable db → reachable (exec op db).

(** *** One conversation: inbound messages, replies and reads *)

Inductive ConvOp :=
  | Inbound (clk : Clock) (preview msg_type : string)
  | Reply (clk : Clock)
  | Read.

Definition conv_step (user_id : Z) (op : ConvOp) (db : DB) : DB :=
  match op with
  | Inbound clk preview msg_type => Chat.new_message clk user_id preview msg_type db
  | Reply clk => Chat.mark_answered clk user_id db
  | Read => Chat.mark_read user_id db
  end.

Definition conv_run (user_id : Z) (ops : list ConvOp) (db : DB) : DB :=
  foldl (λ d op, conv_step user_id op d) db ops.

(** The specification's counter, written from its words over the
    operations alone: every inbound message adds one; a successful reply
    makes the conversation 'answered' and a read makes it 'read', and the
    count starts anew from either. *)
Definition count_inbound (n : Z) (op : ConvOp) : Z :=
  match op with
  | Inbound _ _ _ => n + 1
  | Reply _ | Read => 0
  end.

Definition inbound_since_transition (ops : list ConvOp) : Z :=
  foldl count_inbound 0 ops.

(** *** Consecutive failures of one outbox entry *)

Fixpoint fail_times (clks : list Clock) (outbox_id : Z) (err : string) (db : DB) : option DB :=
  match clks with
  | [] => Some db
  | clk :: rest => db' ← Outbox.mark_failed clk outbox_id err db; fail_times rest outbox_id err db'
  end.

(** *** Repeated inserts into the mapping log *)

(** One call [save_message_mapping(user_id, topic_msg_id, user_msg_id)]. *)
Record Insert := {
  ins_clk : Clock;
  ins_user : Z;
  ins_topic_msg : Z;
  ins_user_msg : Z
}.

Definition save_all (inserts : list Insert) (db : DB) : DB :=
  foldl (λ d i, save_message_mapping (ins_clk i) (ins_user i) (ins_topic_msg i)
                  (ins_user_msg i) d) db inserts.

(** The mappings inserted for one user, oldest first. *)
Definition inserted_for (user_id : Z) (inserts : list Insert) : list (Z * Z) :=
  (λ i, (ins_topic_msg i, ins_user_msg i)) <$> filter (λ i, ins_user i = user_id) inserts.

(** The mappings stored for one user, in key order. *)
Definition stored_for (user_id : Z) (db : DB) : list (Z * Z) :=
  (λ r, (SentRow.topic_msg_id r, SentRow.user_msg_id r))
    <$> filter (λ r, SentRow.user_id r = user_id) (sent_messages db).

(** [l[-n:]]: the last [n] elements. *)
Definition last_n {A} (n : nat) (l : list A) : list A := drop (length l - n) l.

(** A history: operations applied in order. *)
Definition exec_all (ops : list Op) (db : DB) : DB :=
  foldl (λ d op, exec op d) db ops.

(** The operation is not an inbound message of the user. *)
Definition not_inbound_of (user_id : Z) (op : Op) : Prop :=
  match op with
  | OpNewMessage _ v _ _ => v ≠ user_id
  | _ => True
  end.

(** What every outbox entry of a reachable database satisfies, for the
    stored key sequence [seq]. *)
Definition entry_ok (seq : Z) (e : OutboxRow.t) : Prop :=
  (1 <= OutboxRow.id e <= seq)
  ∧ 0 <= OutboxRow.retry_count e
  ∧ is_Some (OutboxRow.next_retry_at e)
  ∧ (OutboxRow.status e = "pending" ∨ OutboxRow.status e = "sent" ∨ OutboxRow.status e = "failed")
  ∧ (OutboxRow.status e = "pending" → OutboxRow.retry_count e < 10)
  ∧ (OutboxRow.status e = "failed" → 10 <= OutboxRow.retry_count e)
  ∧ (OutboxRow.retry_count e = 0 ↔ OutboxRow.error e = None).

(** ** Handlers and jobs *)



(** [SELECT user_id, topic_id FROM chats WHERE is_archived=0 AND
    last_message_at<?] *)
Definition archive_where (cutoff : Z) (c : ChatDict) : Prop :=
  ChatRow.is_archived c.2 = 0
  ∧ match ChatRow.last_message_at c.2 with Some t => t < cutoff | None => False end.

#[global] Instance archive_where_dec cutoff c : Decision (archive_where cutoff c).
Proof. unfold archive_where. destruct (ChatRow.last_message_at c.2); apply _. Defined.


(** The [inbox:readall] branch of [handle_callback]:
    [for chat in Chat.get_unread(): Chat.mark_read(chat['user_id'])]. *)
Definition inbox_readall (clk : Clock) (db : DB) : DB :=
  foldl (λ d c, Chat.mark_read c.1 d) db (Chat.get_unread clk db).


(** *** Incoming user messages *)

(** The attributes of a transport user that the handlers read. *)
Module User.
Record t := mk {
  id : Z;
  username : option string;
  first_name : option string;
  last_name : option string
}.
End User.

(** [create_topic], on the four tables: [created] is the thread id returned
    by [bot.create_forum_topic], or [None] when that call raises, in which
    case nothing is written and the exception leaves the function.  The
    topic-name cache written afterwards is a separate table. *)
Definition create_topic (created : option Z) (clk : Clock) (user : User.t) (db : DB)
    : option (DB * Z) :=
  match created with
  | None => None
  | Some thread =>
      Some (Chat.create clk (User.id user) (or_else (User.username user) "")
              (or_else (User.first_name user) "") (or_else (User.last_name user) "")
              thread db, thread)
  end.

(** The fields of an update that [handle_user] reads. *)
Record Update := {
  chat_type : option string;        (* effective_chat.type, if there is a chat *)
  effective_user : option User.t;
  message : option Message
}.

(** What the handler meets: whether the user is recording a sequence, and
    the outcome and clock reading of each transport call it may make.
    [welcome] is [None] when no welcome message is configured, otherwise
    whether [msg.reply_text] returned. *)
Record UserWorld := {
  recording : bool;
  first_topic : option Z;
  first_topic_clk : Clock;
  welcome : option bool;
  first_copy : CopyResult;
  first_copy_clk : Clock;
  second_topic : option Z;
  second_topic_clk : Clock;
  second_copy : CopyResult;
  second_copy_clk : Clock
}.

(** How a handler ends: it returns, or an exception leaves it (and reaches
    [error_handler]); either way with the database as committed so far. *)
Inductive Handled :=
  | Returned (db : DB)
  | Escaped (db : DB).

Definition final_db (h : Handled) : DB :=
  match h with Returned db | Escaped db => db end.

(** [handle_user] from "Forward to topic" on, for the chat row read before. *)
Definition relay_with_retry (w : UserWorld) (user : User.t) (msg : Message)
    (chat : option ChatDict) (db : DB) : Handled :=
  match chat with
  | None => Escaped db                       (* chat['topic_id'] on None *)
  | Some c =>
      let '(db1, success) :=
        forward_to_topic (first_copy w) (first_copy_clk w) msg (ChatRow.topic_id c.2)
          (User.id user) db in
      if success then Returned db1
      else
        match create_topic (second_topic w) (second_topic_clk w) user db1 with
        | None => Escaped db1
        | Some (db2, _) =>
            match Chat.get (User.id user) db2 with
            | None => Escaped db2
            | Some c2 =>
                Returned (forward_to_topic (second_copy w) (second_copy_clk w) msg
                            (ChatRow.topic_id c2.2) (User.id user) db2).1
            end
        end
  end.

(** [handle_user], on the four tables ([update_topic] at its end only
    renames the forum topic and writes the topic-name cache). *)
Definition handle_user (w : UserWorld) (upd : Update) (db : DB) : Handled :=
  match chat_type upd with
  | None => Returned db
  | Some ty =>
      if negb (String.eqb ty "private") then Returned db
      else
        match effective_user upd, message upd with
        | Some user, Some msg =>
            if recording w then Returned db
            else
              let chat := Chat.get (User.id user) db in
              let needs_topic :=
                match chat with
                | None => true
                | Some c => negb (ChatRow.is_archived c.2 =? 0)
                end in
              if needs_topic then
                match create_topic (first_topic w) (first_topic_clk w) user db with
                | None => Escaped db
                | Some (db1, _) =>
                    match welcome w with
                    | Some false => Escaped db1
                    | _ => relay_with_retry w user msg (Chat.get (User.id user) db1) db1
                    end
                end
              else relay_with_retry w user msg chat db
        | _, _ => Returned db
        end
  end.

(** ** Example data *)

Module Ex.
Definition clk0 : Clock := {| now := 1000; current_timestamp := 1 |}.

(** 25 hours after [clk0]. *)
Definition clk25h : Clock :=
  {| now := 1000 + timedelta_hours 25; current_timestamp := 90001 |}.

Definition user : Z := 7.
Definition topic : Z := 55.

(** Two message objects that carry a [content_type] attribute. *)
Definition user_msg : Message :=
  {| chat_id := user; message_id := 41; text := Some "hello";
     caption := None; content_type := Some (Some "text") |}.

Definition staff_msg : Message :=
  {| chat_id := SUPPORT_GROUP_ID; message_id := 900; text := Some "hi there";
     caption := None; content_type := Some (Some "text") |}.

(** A user wrote once: conversation created, message relayed. *)
Definition db_created : DB := Chat.create clk0 user "u" "F" "L" topic init_db.
Definition db_unread : DB := (forward_to_topic (Sent 3) clk0 user_msg topic user db_created).1.

(** The staff reply reached the user at once. *)
Definition db_answered : DB :=
  (forward_to_user (Sent 5) clk0 staff_msg user topic db_unread).1.

(** The staff reply could not be delivered and was queued. *)
Definition db_queued_reply : DB :=
  (forward_to_user (Raised "timed out") clk0 staff_msg user topic db_unread).1.

(** The user's second message could not be relayed and was queued. *)
Definition db_queued_inbound : DB :=
  (forward_to_topic (Raised "timed out") clk0 user_msg topic user db_unread).1.

(** A transport that delivers everything. *)
Definition world_ok : World :=
  {| copy_message := λ _, Sent 77; clock_at := λ _, clk25h |}.

(** The conversation is answered, then its follow-up is skipped for 72
    hours (the [fuskip] button). *)
Definition db_snoozed : DB := default db_answered (Chat.snooze clk0 user 72 db_answered).

(** The user wrote once and the staff marked the conversation read. *)
Definition db_read : DB :=
  exec (OpMarkRead user)
    (exec (OpNewMessage clk0 user "hello" "text")
       (exec (OpCreate clk0 user "u" "F" "L" topic) init_db)).

Definition row_read : ChatRow.t :=
  ChatRow.mk "u" "F" "L" topic "read" "normal" 0 (Some "hello") (Some "text")
    (Some 1000) None 1 0 None 0 0.

Definition row_created : ChatRow.t :=
  ChatRow.mk "u" "F" "L" topic "unread" "normal" 0 None None
    (Some 1000) None 1 0 None 0 0.

(** Two messages, a read, one message, a reply, a read, three messages. *)
Definition conversation : list ConvOp :=
  [Inbound clk0 "a" "text"; Inbound clk0 "b" "text"; Read;
   Inbound clk0 "c" "text"; Reply clk0; Read;
   Inbound clk0 "d" "text"; Inbound clk0 "e" "photo"; Inbound clk25h "f" "text"].

(** 101 mappings of one user that all name topic message 1; the k-th
    maps it to user message k. *)
Definition same_topic : list Insert :=
  (λ k, {| ins_clk := clk0; ins_user := user; ins_topic_msg := 1;
           ins_user_msg := Z.of_nat k |}) <$> seq 1 101.

(** 150 mappings of one user, the k-th from topic message k to user
    message 1000 + k. *)
Definition many_replies : list Insert :=
  (λ k, {| ins_clk := clk0; ins_user := user; ins_topic_msg := Z.of_nat k;
           ins_user_msg := 1000 + Z.of_nat k |}) <$> seq 1 150.

(** The row of the conversation in [db_unread]. *)
Definition row_unread : ChatRow.t :=
  ChatRow.mk "u" "F" "L" topic "unread" "normal" 1 (Some "hello") (Some "text")
    (Some 1000) None 1 0 None 0 0.

(** The row of the conversation in [db_answered]. *)
Definition row_answered : ChatRow.t :=
  ChatRow.mk "u" "F" "L" topic "answered" "normal" 0 (Some "hello") (Some "text")
    (Some 1000) (Some 1000) 1 0 None 0 0.

(** Its row in [db_snoozed]. *)
Definition row_snoozed : ChatRow.t :=
  ChatRow.mk "u" "F" "L" topic "answered" "normal" 0 (Some "hello") (Some "text")
    (Some 1000) (Some 1000) 1 0 (Some 259200001000) 0 0.
End Ex.

(** ** More example data *)

Module ExMore.
(** A conversation with two queued replies; the first one has failed
    once. *)
Definition history : list Op :=
  [OpCreate Ex.clk0 Ex.user "u" "F" "L" Ex.topic;
   OpNewMessage Ex.clk0 Ex.user "hello" "text";
   OpOutboxAdd Ex.clk0 "to_user" SUPPORT_GROUP_ID Ex.user 900 (Some Ex.topic);
   OpOutboxAdd Ex.clk0 "to_user" SUPPORT_GROUP_ID Ex.user 901 (Some Ex.topic);
   OpMarkFailed Ex.clk0 1 "timed out"].

Definition db_outbox : DB := exec_all history init_db.

Definition entry1 : OutboxRow.t :=
  OutboxRow.mk 1 "to_user" SUPPORT_GROUP_ID Ex.user 900 (Some Ex.topic) 1
    (Some (1000 + timedelta_seconds 5)) "pending" (Some "timed out") 1.

Definition entry2 : OutboxRow.t :=
  OutboxRow.mk 2 "to_user" SUPPORT_GROUP_ID Ex.user 901 (Some Ex.topic) 0
    (Some 1000) "pending" None 1.

(** The user of the examples, writing in a private chat. *)
Definition alice : User.t :=
  User.mk Ex.user (Some "u") (Some "F") None.

(** A message as the transport library hands it to the handlers: it has
    no [content_type]. *)
Definition library_msg : Message :=
  {| chat_id := Ex.user; message_id := 42; text := Some "hello again";
     caption := None; content_type := None |}.

Definition private_update : Update :=
  {| chat_type := Some "private"; effective_user := Some alice;
     message := Some library_msg |}.

(** The same user sending [Ex.user_msg], an object with [content_type]. *)
Definition object_update : Update :=
  {| chat_type := Some "private"; effective_user := Some alice;
     message := Some Ex.user_msg |}.

(** Every transport call of the handler succeeds. *)
Definition world_up : UserWorld :=
  {| recording := false;
     first_topic := Some 60; first_topic_clk := Ex.clk25h;
     welcome := None;
     first_copy := Sent 12; first_copy_clk := Ex.clk25h;
     second_topic := Some 61; second_topic_clk := Ex.clk25h;
     second_copy := Sent 13; second_copy_clk := Ex.clk25h |}.

(** The first copy raises (the topic was deleted); the topic is created
    anew and the second copy succeeds. *)
Definition world_topic_gone : UserWorld :=
  {| recording := false;
     first_topic := Some 60; first_topic_clk := Ex.clk25h;
     welcome := None;
     first_copy := Raised "thread not found"; first_copy_clk := Ex.clk25h;
     second_topic := Some 61; second_topic_clk := Ex.clk25h;
     second_copy := Sent 13; second_copy_clk := Ex.clk25h |}.

(** The conversation of [Ex.db_unread], archived. *)
Definition db_archived : DB := Chat.archive Ex.user Ex.db_unread.

Definition row_archived : ChatRow.t :=
  ChatRow.mk "u" "F" "L" Ex.topic "closed" "normal" 1 (Some "hello") (Some "text")
    (Some 1000) None 1 1 None 0 0.
End ExMore.

(** * Properties *)

(** ** Frame lemmas *)

Lemma chats_with_chats f db : chats (with_chats f db) = f (chats db).
Proof. reflexivity. Qed.

Lemma chats_with_outbox f db : chats (with_outbox f db) = chats db.
Proof. reflexivity. Qed.

Lemma lookup_alter_Some_eq (f : ChatRow.t → ChatRow.t) (m : gmap Z ChatRow.t) u r :
  m !! u = Some r → alter f u m !! u = Some (f r).
Proof. intros H. by rewrite lookup_alter_eq, H. Qed.

(** [Chat.snooze] either raises before it writes or issues its UPDATE. *)
Lemma snooze_cases clk u hours db :
  Chat.snooze clk u hours db = None
  ∨ Chat.snooze clk u hours db
    = Some (with_chats (alter (Chat.snooze_row (now clk + timedelta_hours hours)) u) db).
Proof. unfold Chat.snooze. repeat case_decide; auto. Qed.

Ltac snooze_cases_in H :=
  match type of H with
  | context [Chat.snooze ?c ?v ?h ?d] =>
      destruct (snooze_cases c v h d) as [Hsnz|Hsnz]; rewrite Hsnz in H; simpl in H
  end.

Ltac snooze_cases_goal :=
  match goal with
  | |- context [Chat.snooze ?c ?v ?h ?d] =>
      destruct (snooze_cases c v h d) as [Hsnz|Hsnz]; rewrite Hsnz; simpl
  end.

Lemma StronglySorted_lt_NoDup (ids : list Z) : StronglySorted Z.lt ids → NoDup ids.
Proof.
  induction 1 as [|x ids _ IH Hall]; constructor; [|done].
  intros Hin. rewrite Forall_forall in Hall. specialize (Hall _ Hin). lia.
Qed.

Lemma reachable_exec_all ops : ∀ db, reachable db → reachable (exec_all ops db).
Proof.
  induction ops as [|op ops IH]; intros db Hdb; [done|].
  unfold exec_all. simpl. apply IH. by constructor.
Qed.

(** ** Conversation store *)

(** C7: for an existing conversation, [Chat.new_message] sets the status to
    'unread', adds exactly one to [unread_count], resets [followup_stage]
    and [followup_done] to 0 and clears [snoozed_until]; no other
    conversation is touched. *)
Theorem new_message_supersedes_followup clk u preview msg_type db r :
  chats db !! u = Some r →
  ∃ r', chats (Chat.new_message clk u preview msg_type db) !! u = Some r'
    ∧ ChatRow.status r' = "unread"
    ∧ ChatRow.unread_count r' = ChatRow.unread_count r + 1
    ∧ ChatRow.followup_stage r' = 0
    ∧ ChatRow.followup_done r' = 0
    ∧ ChatRow.snoozed_until r' = None
    ∧ ∀ v, v ≠ u → chats (Chat.new_message clk u preview msg_type db) !! v = chats db !! v.
Proof.
  intros Hr. exists (Chat.new_message_row clk preview msg_type r).
  unfold Chat.new_message. rewrite chats_with_chats.
  split; [by apply lookup_alter_Some_eq|].
  repeat split. intros v Hv. by apply lookup_alter_ne.
Qed.

Lemma new_message_supersedes_followup_witness :
  ∃ r', chats (Chat.new_message Ex.clk25h Ex.user "again" "text" Ex.db_snoozed) !! Ex.user = Some r'
    ∧ ChatRow.status r' = "unread"
    ∧ ChatRow.unread_count r' = ChatRow.unread_count Ex.row_snoozed + 1
    ∧ ChatRow.followup_stage r' = 0
    ∧ ChatRow.followup_done r' = 0
    ∧ ChatRow.snoozed_until r' = None
    ∧ ∀ v, v ≠ Ex.user →
        chats (Chat.new_message Ex.clk25h Ex.user "again" "text" Ex.db_snoozed) !! v
        = chats Ex.db_snoozed !! v.
Proof.
  apply (new_message_supersedes_followup Ex.clk25h Ex.user "again" "text" Ex.db_snoozed
           Ex.row_snoozed).
  vm_compute. reflexivity.
Defined.

(** C10: [Chat.archive] sets [is_archived] to 1 and [status] to 'closed' on
    the conversation's row and changes nothing else: every other column of
    the row, every other row and every other table is preserved; a
    conversation archived while 'unread' keeps its positive
    [unread_count]. *)
Theorem archive_changes_only_status_and_flag u db r :
  chats db !! u = Some r →
  ∃ r', chats (Chat.archive u db) !! u = Some r'
    ∧ ChatRow.is_archived r' = 1
    ∧ ChatRow.status r' = "closed"
    ∧ ChatRow.username r' = ChatRow.username r
    ∧ ChatRow.first_name r' = ChatRow.first_name r
    ∧ ChatRow.last_name r' = ChatRow.last_name r
    ∧ ChatRow.topic_id r' = ChatRow.topic_id r
    ∧ ChatRow.priority r' = ChatRow.priority r
    ∧ ChatRow.unread_count r' = ChatRow.unread_count r
    ∧ ChatRow.last_message_preview r' = ChatRow.last_message_preview r
    ∧ ChatRow.last_message_type r' = ChatRow.last_message_type r
    ∧ ChatRow.last_message_at r' = ChatRow.last_message_at r
    ∧ ChatRow.last_reply_at r' = ChatRow.last_reply_at r
    ∧ ChatRow.created_at r' = ChatRow.created_at r
    ∧ ChatRow.snoozed_until r' = ChatRow.snoozed_until r
    ∧ ChatRow.followup_stage r' = ChatRow.followup_stage r
    ∧ ChatRow.followup_done r' = ChatRow.followup_done r
    ∧ (ChatRow.status r = "unread" → 0 < ChatRow.unread_count r →
       0 < ChatRow.unread_count r')
    ∧ (∀ v, v ≠ u → chats (Chat.archive u db) !! v = chats db !! v)
    ∧ messages (Chat.archive u db) = messages db
    ∧ outbox (Chat.archive u db) = outbox db
    ∧ sent_messages (Chat.archive u db) = sent_messages db.
Proof.
  intros Hr. exists (Chat.archive_row r).
  unfold Chat.archive. rewrite chats_with_chats.
  split; [by apply lookup_alter_Some_eq|].
  repeat split; try done.
  intros v Hv. by apply lookup_alter_ne.
Qed.

Lemma archive_changes_only_status_and_flag_witness :
  ∃ r', chats (Chat.archive Ex.user Ex.db_snoozed) !! Ex.user = Some r'
    ∧ ChatRow.is_archived r' = 1
    ∧ ChatRow.status r' = "closed"
    ∧ ChatRow.username r' = ChatRow.username Ex.row_snoozed
    ∧ ChatRow.first_name r' = ChatRow.first_name Ex.row_snoozed
    ∧ ChatRow.last_name r' = ChatRow.last_name Ex.row_snoozed
    ∧ ChatRow.topic_id r' = ChatRow.topic_id Ex.row_snoozed
    ∧ ChatRow.priority r' = ChatRow.priority Ex.row_snoozed
    ∧ ChatRow.unread_count r' = ChatRow.unread_count Ex.row_snoozed
    ∧ ChatRow.last_message_preview r' = ChatRow.last_message_preview Ex.row_snoozed
    ∧ ChatRow.last_message_type r' = ChatRow.last_message_type Ex.row_snoozed
    ∧ ChatRow.last_message_at r' = ChatRow.last_message_at Ex.row_snoozed
    ∧ ChatRow.last_reply_at r' = ChatRow.last_reply_at Ex.row_snoozed
    ∧ ChatRow.created_at r' = ChatRow.created_at Ex.row_snoozed
    ∧ ChatRow.snoozed_until r' = ChatRow.snoozed_until Ex.row_snoozed
    ∧ ChatRow.followup_stage r' = ChatRow.followup_stage Ex.row_snoozed
    ∧ ChatRow.followup_done r' = ChatRow.followup_done Ex.row_snoozed
    ∧ (ChatRow.status Ex.row_snoozed = "unread" → 0 < ChatRow.unread_count Ex.row_snoozed →
       0 < ChatRow.unread_count r')
    ∧ (∀ v, v ≠ Ex.user →
         chats (Chat.archive Ex.user Ex.db_snoozed) !! v = chats Ex.db_snoozed !! v)
    ∧ messages (Chat.archive Ex.user Ex.db_snoozed) = messages Ex.db_snoozed
    ∧ outbox (Chat.archive Ex.user Ex.db_snoozed) = outbox Ex.db_snoozed
    ∧ sent_messages (Chat.archive Ex.user Ex.db_snoozed) = sent_messages Ex.db_snoozed.
Proof.
  apply (archive_changes_only_status_and_flag Ex.user Ex.db_snoozed Ex.row_snoozed).
  vm_compute. reflexivity.
Defined.

(** ** Relay engine *)

(** C5: when [copy_message] raises during an immediate relay,
    [forward_to_topic] returns [False] and [forward_to_user] returns [None];
    both leave the conversation rows, the mapping log and the message log as
    they were and append exactly one outbox entry, pending, with direction
    'to_topic' (respectively 'to_user'), naming the source message. *)
Theorem failed_relay_only_enqueues err clk msg topic_id user_id db :
  let t := forward_to_topic (Raised err) clk msg topic_id user_id db in
  let u := forward_to_user (Raised err) clk msg user_id topic_id db in
  (t.2 = false
   ∧ chats t.1 = chats db
   ∧ sent_messages t.1 = sent_messages db
   ∧ messages t.1 = messages db
   ∧ ∃ e, outbox t.1 = outbox db ++ [e]
       ∧ OutboxRow.status e = "pending"
       ∧ OutboxRow.direction e = "to_topic"
       ∧ OutboxRow.retry_count e = 0
       ∧ OutboxRow.from_chat_id e = chat_id msg
       ∧ OutboxRow.to_chat_id e = SUPPORT_GROUP_ID
       ∧ OutboxRow.message_id e = message_id msg
       ∧ OutboxRow.topic_id e = Some topic_id)
  ∧ (u.2 = None
   ∧ chats u.1 = chats db
   ∧ sent_messages u.1 = sent_messages db
   ∧ messages u.1 = messages db
   ∧ ∃ e, outbox u.1 = outbox db ++ [e]
       ∧ OutboxRow.status e = "pending"
       ∧ OutboxRow.direction e = "to_user"
       ∧ OutboxRow.retry_count e = 0
       ∧ OutboxRow.from_chat_id e = chat_id msg
       ∧ OutboxRow.to_chat_id e = user_id
       ∧ OutboxRow.message_id e = message_id msg
       ∧ OutboxRow.topic_id e = Some topic_id).
Proof.
  simpl. split; (repeat split; eexists; repeat split).
Qed.

(** A staff reply that is a message of the transport library (no
    [content_type]): the copy succeeds and the mapping is saved, then the
    read of [content_type] raises; the reply is queued although it was
    delivered, [None] is returned and the conversation is not marked
    answered. *)
Example delivered_reply_is_queued :
  let msg := {| chat_id := SUPPORT_GROUP_ID; message_id := 900; text := Some "hi there";
                caption := None; content_type := None |} in
  let res := forward_to_user (Sent 5) Ex.clk0 msg Ex.user Ex.topic Ex.db_unread in
  res.2 = None
  ∧ get_user_msg_id Ex.user 900 res.1 = Some 5
  ∧ chats res.1 !! Ex.user = Some Ex.row_unread
  ∧ messages res.1 = messages Ex.db_unread
  ∧ (λ e, (OutboxRow.direction e, OutboxRow.status e, OutboxRow.message_id e))
      <$> outbox res.1 = [("to_user", "pending", 900)].
Proof. vm_compute. repeat split. Qed.

(** ** Reads *)

Lemma mark_read_row_idem r :
  Chat.mark_read_row (Chat.mark_read_row r) = Chat.mark_read_row r.
Proof.
  destruct r as [? ? ? ? st ? ? ? ? ? ? ? ? ? ? ?]. unfold Chat.mark_read_row. simpl.
  destruct (String.eqb st "unread") eqn:E; simpl; [done|]. by rewrite E.
Qed.

Lemma mark_read_row_read r :
  ChatRow.status r = "read" → ChatRow.unread_count r = 0 → Chat.mark_read_row r = r.
Proof.
  destruct r. unfold Chat.mark_read_row. simpl. by intros -> ->.
Qed.

Lemma mark_read_idem u db : Chat.mark_read u (Chat.mark_read u db) = Chat.mark_read u db.
Proof.
  unfold Chat.mark_read, with_chats. simpl. f_equal.
  apply map_eq. intros j.
  destruct (decide (u = j)) as [->|]; [rewrite !lookup_alter_eq | by rewrite !lookup_alter_ne].
  destruct (chats db !! j); simpl; [by rewrite mark_read_row_idem | done].
Qed.

(** In every database the program can reach, a conversation whose status
    is 'read' has no unread messages: only [Chat.mark_read] writes that
    status, and it zeroes the counter in the same statement. *)
Lemma reachable_read_zero db :
  reachable db →
  ∀ u r, chats db !! u = Some r → ChatRow.status r = "read" → ChatRow.unread_count r = 0.
Proof.
  induction 1 as [|op db Hreach IH]; intros u r Hr Hst.
  - simpl in Hr. by rewrite lookup_empty in Hr.
  - destruct op; simpl in Hr;
      try snooze_cases_in Hr;
      try (by eapply IH);
      try (unfold Outbox.mark_failed in Hr;
           destruct (Outbox.delay_for _); simpl in Hr; [|by eapply IH];
           destruct (10 <=? _); simpl in Hr; by eapply IH);
      try (rewrite lookup_alter in Hr; case_decide as Hu; [subst|by eapply IH];
           destruct (chats db !! u) as [r0|] eqn:Hr0; simplify_eq/=;
           solve [done | by eapply IH]).
    rewrite lookup_partial_alter in Hr. case_decide as Hu; [subst|by eapply IH].
    destruct (chats db !! u); by simplify_eq/=.
Qed.

(** C8: in every reachable database, [Chat.mark_read] on a conversation
    whose status is already 'read' changes nothing at all, so neither
    [status] nor [unread_count]; and in any database a second [mark_read]
    changes nothing after the first. *)
Theorem mark_read_on_read_is_noop db u r :
  reachable db →
  chats db !! u = Some r →
  ChatRow.status r = "read" →
  Chat.mark_read u db = db
  ∧ chats (Chat.mark_read u db) !! u = Some r
  ∧ ∀ db' v, Chat.mark_read v (Chat.mark_read v db') = Chat.mark_read v db'.
Proof.
  intros Hreach Hr Hst.
  assert (Chat.mark_read u db = db) as Heq.
  { destruct db. unfold Chat.mark_read, with_chats. simpl in *. f_equal.
    apply alter_id. intros r' Hr'. simplify_eq.
    apply mark_read_row_read; [done|].
    by eapply (reachable_read_zero _ Hreach). }
  split; [done|]. split; [by rewrite Heq|]. intros. apply mark_read_idem.
Qed.

Lemma mark_read_on_read_is_noop_witness :
  Chat.mark_read Ex.user Ex.db_read = Ex.db_read
  ∧ chats (Chat.mark_read Ex.user Ex.db_read) !! Ex.user = Some Ex.row_read
  ∧ ∀ db' v, Chat.mark_read v (Chat.mark_read v db') = Chat.mark_read v db'.
Proof.
  apply (mark_read_on_read_is_noop Ex.db_read Ex.user Ex.row_read).
  - unfold Ex.db_read. repeat apply reachable_exec. apply reachable_init.
  - vm_compute. reflexivity.
  - reflexivity.
Defined.

(** ** The unread counter *)

Lemma conv_step_lookup u op db r :
  chats db !! u = Some r →
  chats (conv_step u op db) !! u
  = Some match op with
         | Inbound clk preview msg_type => Chat.new_message_row clk preview msg_type r
         | Reply clk => Chat.mark_answered_row clk r
         | Read => Chat.mark_read_row r
         end.
Proof. intros Hr. destruct op; simpl; by apply lookup_alter_Some_eq. Qed.

(** The counter of the store and the counter of the specification move in
    step. *)
Lemma unread_count_tracks u ops : ∀ db r,
  chats db !! u = Some r →
  0 <= ChatRow.unread_count r →
  ∃ r', chats (conv_run u ops db) !! u = Some r'
    ∧ 0 <= ChatRow.unread_count r'
    ∧ ChatRow.unread_count r' = foldl count_inbound (ChatRow.unread_count r) ops.
Proof.
  induction ops as [|op ops IH]; intros db r Hr Hpos.
  - by exists r.
  - simpl. pose proof (conv_step_lookup u op db r Hr) as Hstep.
    destruct (IH _ _ Hstep) as (r' & Hr' & Hpos' & Hcount).
    { destruct op; simpl; lia. }
    exists r'. split; [exact Hr'|]. split; [exact Hpos'|].
    rewrite Hcount. by destruct op.
Qed.

(** C6: starting from a conversation with no unread message (as
    [Chat.create] inserts it), after every sequence of inbound messages,
    successful replies and reads the conversation's [unread_count] is not
    negative and equals the number of inbound messages recorded since the
    last reply or read, the operations that make the conversation
    'answered' or 'read'. *)
Theorem unread_count_counts_inbound u ops db r :
  chats db !! u = Some r →
  ChatRow.unread_count r = 0 →
  ∃ r', chats (conv_run u ops db) !! u = Some r'
    ∧ 0 <= ChatRow.unread_count r'
    ∧ ChatRow.unread_count r' = inbound_since_transition ops.
Proof.
  intros Hr Hc. unfold inbound_since_transition.
  destruct (unread_count_tracks u ops db r Hr) as (r' & ? & ? & Hcount); [lia|].
  rewrite Hc in Hcount. by exists r'.
Qed.

Lemma unread_count_counts_inbound_witness :
  ∃ r', chats (conv_run Ex.user Ex.conversation Ex.db_created) !! Ex.user = Some r'
    ∧ 0 <= ChatRow.unread_count r'
    ∧ ChatRow.unread_count r' = inbound_since_transition Ex.conversation.
Proof.
  apply (unread_count_counts_inbound Ex.user Ex.conversation Ex.db_created Ex.row_created).
  - vm_compute. reflexivity.
  - reflexivity.
Defined.

(** In [Ex.conversation] the counter reads 2 after the first two messages,
    0 after the read, 1 after the third message, 0 after the reply and the
    second read, and 3 at the end. *)
Example conversation_counter :
  (λ k, inbound_since_transition (take k Ex.conversation)) <$> seq 0 10
  = [0; 1; 2; 0; 1; 0; 0; 1; 2; 3]
  ∧ (λ k, ChatRow.unread_count
            <$> chats (conv_run Ex.user (take k Ex.conversation) Ex.db_created) !! Ex.user)
      <$> seq 0 10
    = Some <$> [0; 1; 2; 0; 1; 0; 0; 1; 2; 3].
Proof. vm_compute. by split. Qed.

(** ** Follow-up scheduler *)


Section Followups.
Import Chat.
Variable now_ : Z.

Lemma followups_fold rows : ∀ acc,
  foldl (followups_step now_) acc rows
  = mkFollowups
      (due acc ++ filter (λ c, bucket_of_chat now_ c = Some Due) rows)
      (urgent acc ++ filter (λ c, bucket_of_chat now_ c = Some Urgent) rows)
      (overdue acc ++ filter (λ c, bucket_of_chat now_ c = Some Overdue) rows).
Proof.
  induction rows as [|c rows IH]; intros acc.
  - simpl. rewrite !filter_nil, !app_nil_r. by destruct acc.
  - simpl. rewrite IH. rewrite !filter_cons.
    unfold followups_step, bucket_of_chat.
    destruct (ChatRow.last_reply_at c.2) as [t|]; simpl; [|done].
    destruct (bucket_of now_ c.2 t) as [[]|]; simpl;
      repeat case_decide; simplify_eq; by rewrite <- ?app_assoc.
Qed.


End Followups.

Section FollowupChat.
Import Chat.

Lemma followups_rows_elem db c :
  c ∈ followups_rows db ↔ followup_where c ∧ chats db !! c.1 = Some c.2.
Proof.
  unfold followups_rows.
  by rewrite merge_sort_Permutation, list_elem_of_filter, elem_of_map_to_list'.
Qed.


Lemma get_followups_due_filters clk db :
  get_followups_due clk db
  = mkFollowups
      (filter (λ c, bucket_of_chat (now clk) c = Some Due) (followups_rows db))
      (filter (λ c, bucket_of_chat (now clk) c = Some Urgent) (followups_rows db))
      (filter (λ c, bucket_of_chat (now clk) c = Some Overdue) (followups_rows db)).
Proof. unfold get_followups_due. by rewrite followups_fold. Qed.

(** A conversation is listed in a bucket exactly when the query selects
    it and the loop body picks that bucket for it. *)
Lemma bucket_elem clk db c :
  (c ∈ due (get_followups_due clk db)
     ↔ (followup_where c ∧ chats db !! c.1 = Some c.2)
       ∧ bucket_of_chat (now clk) c = Some Due)
  ∧ (c ∈ urgent (get_followups_due clk db)
     ↔ (followup_where c ∧ chats db !! c.1 = Some c.2)
       ∧ bucket_of_chat (now clk) c = Some Urgent)
  ∧ (c ∈ overdue (get_followups_due clk db)
     ↔ (followup_where c ∧ chats db !! c.1 = Some c.2)
       ∧ bucket_of_chat (now clk) c = Some Overdue).
Proof.
  rewrite get_followups_due_filters. simpl.
  rewrite !list_elem_of_filter, !followups_rows_elem. tauto.
Qed.

End FollowupChat.



(** The end-to-end scenario of the specification: 25 hours after the reply
    the conversation, of normal priority, is due and nothing else is. *)
Example answered_25h_ago_is_due :
  Chat.get_followups_due Ex.clk25h Ex.db_answered
  = Chat.mkFollowups [(Ex.user, Ex.row_answered)] [] [].
Proof. vm_compute. reflexivity. Qed.

(** ** Snooze *)

(** A conversation snoozed until [s] is not listed by [Chat.get_unread]
    before [s] has passed. *)
Lemma get_unread_excludes_snoozed clk db u r s :
  ChatRow.snoozed_until r = Some s →
  now clk <= s →
  (u, r) ∉ Chat.get_unread clk db.
Proof.
  intros Hs Hle Hin. unfold Chat.get_unread in Hin.
  rewrite merge_sort_Permutation, list_elem_of_filter in Hin.
  destruct Hin as [(_ & _ & Hsn) _]. unfold Chat.snooze_elapsed in Hsn.
  simpl in Hsn. rewrite Hs in Hsn. lia.
Qed.

(** [Chat.get_followups_due] does not read [snoozed_until]: a snoozed
    conversation that has crossed its threshold is listed all the same. *)
Lemma followups_ignore_snooze clk db u r t s :
  chats db !! u = Some r →
  ChatRow.status r = "answered" →
  ChatRow.is_archived r = 0 →
  ChatRow.followup_done r = 0 →
  ChatRow.last_reply_at r = Some t →
  ChatRow.snoozed_until r = Some s →
  (inject_Z (Chat.threshold r) <= Chat.hours_since (now clk) t)%Q →
  (u, r) ∈ Chat.due (Chat.get_followups_due clk db)
           ++ Chat.urgent (Chat.get_followups_due clk db)
           ++ Chat.overdue (Chat.get_followups_due clk db).
Proof.
  intros Hr Hst Harch Hdone Ht _ Hh.
  destruct (bucket_elem clk db (u, r)) as (Hdue & Hurg & Hover).
  assert (Chat.followup_where (u, r) ∧ chats db !! (u, r).1 = Some (u, r).2) as Hsel.
  { unfold Chat.followup_where. simpl. rewrite Ht. by eauto. }
  assert (∃ b, Chat.bucket_of_chat (now clk) (u, r) = Some b) as [b Hb].
  { unfold Chat.bucket_of_chat. simpl. rewrite Ht. simpl.
    unfold Chat.bucket_of.
    apply Qle_bool_iff in Hh. rewrite Hh. repeat case_match; by eexists. }
  rewrite !elem_of_app, Hdue, Hurg, Hover. destruct b; tauto.
Qed.

(** C3: the conversation of [Ex.db_snoozed] was answered and then snoozed
    for 72 hours (the skip button of the follow-up list).  25 hours later
    its [snoozed_until] is still in the future and [Chat.get_unread] does
    not list it, yet [Chat.get_followups_due] lists it in the 'due'
    bucket. *)
Theorem snoozed_conversation_listed_as_due :
  chats Ex.db_snoozed !! Ex.user = Some Ex.row_snoozed
  ∧ ChatRow.snoozed_until Ex.row_snoozed = Some (now Ex.clk0 + timedelta_hours 72)
  ∧ now Ex.clk25h < now Ex.clk0 + timedelta_hours 72
  ∧ Chat.get_unread Ex.clk25h Ex.db_snoozed = []
  ∧ Chat.get_followups_due Ex.clk25h Ex.db_snoozed
    = Chat.mkFollowups [(Ex.user, Ex.row_snoozed)] [] [].
Proof. vm_compute. repeat split. Qed.

(** ** Outbox: retries and backoff *)

Section OutboxEntry.
Import Outbox OutboxRow.

(** The delay table, indexed by the number of the failure. *)
Lemma delay_for_table n :
  1 <= n →
  delay_for n = Some (if n =? 1 then 5 else if n =? 2 then 15
                      else if n =? 3 then 45 else if n =? 4 then 120
                      else if n =? 5 then 300 else if n =? 6 then 900
                      else 3600).
Proof.
  intros Hn.
  assert (n = 1 ∨ n = 2 ∨ n = 3 ∨ n = 4 ∨ n = 5 ∨ n = 6 ∨ 7 <= n) as Hcases by lia.
  destruct Hcases as [->|[->|[->|[->|[->|[->|H7]]]]]]; try reflexivity.
  unfold delay_for. rewrite Z.min_r by (simpl; lia). simpl.
  repeat (case_match; [lia|]). done.
Qed.



Lemma get_pending_pending clk db r : r ∈ get_pending clk db → status r = "pending".
Proof.
  unfold get_pending. intros Hin. apply subseteq_take in Hin.
  rewrite merge_sort_Permutation, list_elem_of_filter in Hin.
  by destruct Hin as [[? _] _].
Qed.
End OutboxEntry.

(** *** Invariants of the outbox *)

Ltac entry_ok_tac :=
  unfold entry_ok in *; simpl in *; destruct_and?;
  repeat match goal with H : _ ↔ _ |- _ => destruct H end;
  repeat split; intros; simplify_eq/=;
  repeat match goal with H : ?P → _, H' : ?P |- _ => specialize (H H') end;
  try lia; try done; eauto.

Section OutboxInvariant.
Import Outbox OutboxRow.

Lemma select_by_id_elem db e :
  NoDup (id <$> outbox db) → e ∈ outbox db → select_by_id (id e) db = Some e.
Proof.
  unfold select_by_id. induction (outbox db) as [|r l IH]; intros Hnd He.
  - by apply elem_of_nil in He.
  - simpl in *. apply NoDup_cons in Hnd as [Hr Hnd].
    apply elem_of_cons in He as [->|He]; [by rewrite bool_decide_eq_true_2|].
    rewrite bool_decide_eq_false_2; [by apply IH|].
    intros Heq. apply Hr. rewrite Heq. by apply list_elem_of_fmap_2.
Qed.

Lemma select_by_id_None db i :
  i ∉ id <$> outbox db → select_by_id i db = None.
Proof.
  unfold select_by_id. induction (outbox db) as [|r l IH]; intros Hi; [done|].
  simpl in *. apply not_elem_of_cons in Hi as [Hr Hi].
  rewrite bool_decide_eq_false_2 by done. by apply IH.
Qed.

Lemma update_where_id_ids i f l :
  (∀ r, id (f r) = id r) → id <$> update_where_id i f l = id <$> l.
Proof.
  intros Hf. unfold update_where_id. rewrite <- list_fmap_compose.
  apply list_fmap_ext. intros k r _. simpl. case_decide; [apply Hf|done].
Qed.

Lemma update_where_id_absent i f l :
  i ∉ id <$> l → update_where_id i f l = l.
Proof.
  intros Hi. unfold update_where_id. rewrite <- (list_fmap_id l) at 2.
  apply list_fmap_ext. intros k r Hr. simpl. rewrite decide_False; [done|].
  intros <-. apply Hi. apply list_elem_of_fmap_2. by eapply list_elem_of_lookup_2.
Qed.

Lemma reachable_outbox db :
  reachable db →
  0 <= seq_outbox db
  ∧ StronglySorted Z.lt (id <$> outbox db)
  ∧ Forall (entry_ok (seq_outbox db)) (outbox db).
Proof.
  induction 1 as [|op db Hreach (Hseq & Hs & Hall)].
  { simpl. split; [done|]. split; constructor. }
  assert (∀ i f, (∀ r, id (f r) = id r) →
            (∀ r, r ∈ outbox db → id r = i → entry_ok (seq_outbox db) r →
                  entry_ok (seq_outbox db) (f r)) →
            0 <= seq_outbox db
            ∧ StronglySorted Z.lt (id <$> update_where_id i f (outbox db))
            ∧ Forall (entry_ok (seq_outbox db)) (update_where_id i f (outbox db)))
    as Hupd.
  { intros i f Hid Hok. split; [done|]. rewrite update_where_id_ids by done.
    split; [done|]. unfold update_where_id. apply Forall_fmap, Forall_forall.
    intros r Hr. simpl. rewrite Forall_forall in Hall.
    case_decide; [apply Hok|]; auto. }
  destruct op; simpl; try snooze_cases_goal; try done.
  - split; [lia|]. rewrite fmap_app. split.
    + apply StronglySorted_app_2; [|done|repeat constructor].
      intros x1 x2 Hx1 Hx2. apply list_elem_of_fmap in Hx1 as (r & -> & Hr).
      rewrite Forall_forall in Hall. destruct (Hall r Hr) as ([_ ?] & _).
      apply list_elem_of_singleton in Hx2 as ->. simpl. lia.
    + apply Forall_app. split.
      * eapply Forall_impl; [exact Hall|]. intros r ?. entry_ok_tac.
      * repeat constructor; entry_ok_tac.
  - apply Hupd; [done|]. intros r _ _ ?. entry_ok_tac.
  - unfold mark_failed, next_retry_count.
    destruct (delay_for _) as [d|]; simpl; [|done].
    destruct (10 <=? _) eqn:E; simpl; apply Hupd; try done.
    + intros r Hr <- Hok.
      rewrite (select_by_id_elem db r) in E |- * by
        (by apply StronglySorted_lt_NoDup || done).
      apply Z.leb_le in E. entry_ok_tac.
    + intros r Hr <- Hok.
      rewrite (select_by_id_elem db r) in E |- * by
        (by apply StronglySorted_lt_NoDup || done).
      apply Z.leb_gt in E. entry_ok_tac.
Qed.
End OutboxInvariant.

Lemma update_where_id_effect db i f :
  (∀ r, OutboxRow.id (f r) = OutboxRow.id r) →
  chats (with_outbox (Outbox.update_where_id i f) db) = chats db
  ∧ OutboxRow.id <$> outbox (with_outbox (Outbox.update_where_id i f) db)
    = OutboxRow.id <$> outbox db
  ∧ (∀ e, e ∈ outbox db → OutboxRow.id e ≠ i →
       e ∈ outbox (with_outbox (Outbox.update_where_id i f) db))
  ∧ (∀ e, e ∈ outbox db → OutboxRow.id e = i →
       f e ∈ outbox (with_outbox (Outbox.update_where_id i f) db)).
Proof.
  intros Hfid. split; [done|]. split; [by apply update_where_id_ids|].
  simpl. unfold Outbox.update_where_id. split; intros e He Hid;
    apply list_elem_of_fmap; exists e; [by rewrite decide_False|by rewrite decide_True].
Qed.

(** *** Consecutive failures of an entry *)

Section Backoff.
Import Outbox OutboxRow.







End Backoff.



(** The same entry failed until its tenth failure: it is 'failed', keeps
    the retry time set by the ninth failure, and the drainer fetches only
    the other entry, which is as it was. *)
Example ten_failures :
  (λ db, (OutboxRow.status <$> outbox db, OutboxRow.retry_count <$> outbox db,
          OutboxRow.next_retry_at <$> outbox db, Outbox.get_pending Ex.clk25h db))
    <$> fail_times (replicate 8 Ex.clk0 ++ [Ex.clk25h]) 1 "timed out" ExMore.db_outbox
  = Some (["failed"; "pending"], [10; 0],
          [Some (1000 + timedelta_seconds 3600); Some 1000], [ExMore.entry2]).
Proof. vm_compute. reflexivity. Qed.


(** ** Outbox drainer *)

Lemma mark_failed_frame clk i err db db' :
  Outbox.mark_failed clk i err db = Some db' →
  chats db' = chats db ∧ sent_messages db' = sent_messages db ∧ messages db' = messages db.
Proof.
  unfold Outbox.mark_failed. destruct (Outbox.delay_for _); simpl; [|done].
  destruct (10 <=? _); intros; by simplify_eq.
Qed.

(** A drainer tick writes to the outbox only: the conversation rows, the
    mapping log and the message log are as before the tick. *)
Lemma process_items_frame w items : ∀ db,
  chats (process_items w items db) = chats db
  ∧ sent_messages (process_items w items db) = sent_messages db
  ∧ messages (process_items w items db) = messages db.
Proof.
  induction items as [|item items IH]; intros db; simpl; [done|].
  destruct (if String.eqb _ _ then _ else _) as [?|e].
  - destruct (IH (Outbox.mark_sent (OutboxRow.id item) db)) as (-> & -> & ->). done.
  - destruct (Outbox.mark_failed _ _ _ db) as [db'|] eqn:E; [|done].
    destruct (mark_failed_frame _ _ _ _ _ E) as (<- & <- & <-). apply IH.
Qed.

Lemma job_process_outbox_frame clk w db :
  chats (job_process_outbox clk w db) = chats db
  ∧ sent_messages (job_process_outbox clk w db) = sent_messages db
  ∧ messages (job_process_outbox clk w db) = messages db.
Proof. apply process_items_frame. Qed.

(** C1: a reply that could not be delivered at once is queued
    ([Ex.db_queued_reply]); a later tick of [job_process_outbox] whose
    transport call succeeds marks the entry 'sent' and no later tick fetches
    it again, but the conversation stays 'unread' with [unread_count] 1 and
    no [last_reply_at] and no mapping is recorded, whereas the immediate
    success ([Ex.db_answered]) makes it 'answered' with [unread_count] 0 and
    [last_reply_at] set.  Likewise a queued inbound message
    ([Ex.db_queued_inbound]) is marked 'sent' by the tick while
    [unread_count] stays 1; relayed at once it would be 2. *)
Theorem drained_delivery_skips_conversation_update :
  let drained_reply := job_process_outbox Ex.clk25h Ex.world_ok Ex.db_queued_reply in
  let drained_inbound := job_process_outbox Ex.clk25h Ex.world_ok Ex.db_queued_inbound in
  ((λ e, (OutboxRow.direction e, OutboxRow.status e)) <$> outbox Ex.db_queued_reply
     = [("to_user", "pending")]
   ∧ OutboxRow.status <$> outbox drained_reply = ["sent"]
   ∧ Outbox.get_pending Ex.clk25h drained_reply = []
   ∧ chats drained_reply !! Ex.user = Some Ex.row_unread
   ∧ sent_messages drained_reply = []
   ∧ chats Ex.db_answered !! Ex.user = Some Ex.row_answered
   ∧ get_user_msg_id Ex.user 900 Ex.db_answered = Some 5)
  ∧ ((λ e, (OutboxRow.direction e, OutboxRow.status e)) <$> outbox Ex.db_queued_inbound
       = [("to_topic", "pending")]
     ∧ OutboxRow.status <$> outbox drained_inbound = ["sent"]
     ∧ Outbox.get_pending Ex.clk25h drained_inbound = []
     ∧ ChatRow.unread_count <$> chats drained_inbound !! Ex.user = Some 1
     ∧ ChatRow.unread_count
         <$> chats (forward_to_topic (Sent 4) Ex.clk0 Ex.user_msg Ex.topic Ex.user
                      Ex.db_unread).1 !! Ex.user
       = Some 2).
Proof. vm_compute. repeat split. Qed.

(** ** Mapping log *)

Section MappingLog.
Import SentRow.

#[local] Instance id_desc_trans : Transitive id_desc.
Proof. unfold id_desc. intros x y z; lia. Qed.

#[local] Instance id_desc_antisymm : AntiSymm (=) id_desc.
Proof. unfold id_desc. intros x y; lia. Qed.

#[local] Instance id_desc_total : Total id_desc.
Proof. unfold id_desc. intros x y; lia. Qed.

(** On keys in increasing order, [ORDER BY id DESC] reverses the list. *)
Lemma sort_desc_increasing (ids : list Z) :
  StronglySorted Z.lt ids → merge_sort id_desc ids = reverse ids.
Proof.
  intros Hs. apply (Sorted_unique id_desc).
  - apply Sorted_merge_sort; apply _.
  - rewrite <- (list_fmap_id (reverse ids)).
    apply (Sorted_fmap _ (flip Z.lt) id_desc).
    + unfold id_desc, flip. intros; simpl; lia.
    + apply Sorted_reverse. by apply StronglySorted_Sorted.
  - by rewrite merge_sort_Permutation, reverse_Permutation.
Qed.

Lemma StronglySorted_filter_ids (P : t → Prop) `{!∀ r, Decision (P r)} rows :
  StronglySorted Z.lt (id <$> rows) → StronglySorted Z.lt (id <$> filter P rows).
Proof.
  induction rows as [|r rows IH]; simpl; [done|].
  intros Hs. apply StronglySorted_inv in Hs as [Hs Hall].
  rewrite filter_cons. case_decide; [|by apply IH].
  simpl. constructor; [by apply IH|].
  rewrite Forall_fmap in Hall |- *. rewrite Forall_forall in Hall |- *.
  intros x Hx. apply Hall. by apply list_elem_of_filter in Hx as [_ ?].
Qed.

(** The keys the inner SELECT keeps: those of the last 100 rows of the
    user. *)
Lemma newest_ids_elem user rows x :
  StronglySorted Z.lt (id <$> rows) →
  x ∈ newest_ids user rows
  ↔ x ∈ id <$> last_n 100 (filter (λ r, user_id r = user) rows).
Proof.
  intros Hs. unfold newest_ids, last_n.
  rewrite sort_desc_increasing by by apply StronglySorted_filter_ids.
  by rewrite take_reverse, elem_of_reverse, length_fmap, fmap_drop.
Qed.

Lemma filter_all {A} (P : A → Prop) `{!∀ x, Decision (P x)} (l : list A) :
  Forall P l → filter P l = l.
Proof.
  induction 1 as [|x l Hx _ IH]; [done|]. by rewrite filter_cons_True, IH.
Qed.

(** Keeping the rows whose key is among the keys of a suffix keeps that
    suffix. *)
Lemma filter_ids_of_drop rows : ∀ k,
  NoDup (id <$> rows) →
  filter (λ r, id r ∈ id <$> drop k rows) rows = drop k rows.
Proof.
  induction rows as [|r rows IH]; intros k Hnd; [by rewrite drop_nil|].
  destruct k as [|k].
  - rewrite drop_0. apply filter_all, Forall_forall. intros x Hx.
    by apply list_elem_of_fmap_2.
  - simpl in *. apply NoDup_cons in Hnd as [Hr Hnd].
    rewrite filter_cons_False; [by apply IH|].
    intros Hin. apply Hr. rewrite fmap_drop in Hin.
    by apply subseteq_drop in Hin.
Qed.

Lemma prune_same_user user rows :
  StronglySorted Z.lt (id <$> rows) →
  filter (λ r, user_id r = user) (prune user rows)
  = last_n 100 (filter (λ r, user_id r = user) rows).
Proof.
  intros Hs. unfold prune. rewrite list_filter_filter.
  rewrite (list_filter_iff _
    (λ r, id r ∈ id <$> last_n 100 (filter (λ r, user_id r = user) rows)
          ∧ user_id r = user)).
  - rewrite <- list_filter_filter. unfold last_n.
    apply filter_ids_of_drop, StronglySorted_lt_NoDup.
    by apply StronglySorted_filter_ids.
  - intros r. rewrite <- (newest_ids_elem user rows (id r) Hs).
    destruct (decide (id r ∈ newest_ids user rows)); tauto.
Qed.

Lemma prune_other_user user other rows :
  other ≠ user →
  filter (λ r, user_id r = other) (prune user rows) = filter (λ r, user_id r = other) rows.
Proof.
  intros Hne. unfold prune. rewrite list_filter_filter.
  apply list_filter_iff. intros r. split; [tauto|].
  intros Hr. split; [done|]. intros [Hu _]. congruence.
Qed.

Lemma last_n_snoc {A} (n : nat) (l : list A) x :
  (1 ≤ n)%nat → last_n n (last_n n l ++ [x]) = last_n n (l ++ [x]).
Proof.
  intros Hn. unfold last_n. rewrite !length_app, length_drop. simpl.
  destruct (decide (length l ≤ n)%nat) as [Hle|Hgt].
  - replace (length l - n)%nat with 0%nat by lia. by rewrite drop_0, Nat.sub_0_r.
  - rewrite !drop_app_le by (rewrite ?length_drop; lia).
    rewrite drop_drop. do 2 f_equal. lia.
Qed.

Lemma last_n_fmap {A B} (f : A → B) (n : nat) (l : list A) :
  f <$> last_n n l = last_n n (f <$> l).
Proof. unfold last_n. by rewrite fmap_drop, length_fmap. Qed.

Lemma save_all_snoc inserts i db :
  save_all (inserts ++ [i]) db
  = save_message_mapping (ins_clk i) (ins_user i) (ins_topic_msg i) (ins_user_msg i)
      (save_all inserts db).
Proof. unfold save_all. by rewrite foldl_app. Qed.

(** After any sequence of inserts into an empty log the keys are in
    increasing order, bounded by the sequence, and every user holds the last
    100 of their mappings. *)
Lemma save_all_invariant inserts :
  let db := save_all inserts init_db in
  StronglySorted Z.lt (id <$> sent_messages db)
  ∧ Forall (λ r, id r <= seq_sent_messages db) (sent_messages db)
  ∧ ∀ user, stored_for user db = last_n 100 (inserted_for user inserts).
Proof.
  induction inserts as [|i inserts IH] using rev_ind; simpl.
  { split; [constructor|]. split; [constructor|]. done. }
  destruct IH as (Hs & Hb & Hst). rewrite save_all_snoc.
  set (db := save_all inserts init_db) in *.
  set (row := mk (seq_sent_messages db + 1) (ins_user i) (ins_topic_msg i)
                (ins_user_msg i) (current_timestamp (ins_clk i))).
  assert (StronglySorted Z.lt (id <$> sent_messages db ++ [row])) as Hs'.
  { rewrite fmap_app. apply StronglySorted_app_2; [|done|repeat constructor].
    intros x1 x2 Hx1 Hx2. apply list_elem_of_fmap in Hx1 as (r & -> & Hr).
    rewrite Forall_forall in Hb. specialize (Hb r Hr).
    apply list_elem_of_singleton in Hx2 as ->. simpl. lia. }
  unfold save_message_mapping. fold db. fold row. simpl.
  split; [by apply StronglySorted_filter_ids|].
  split.
  { unfold prune. apply Forall_forall. intros r Hr.
    apply list_elem_of_filter in Hr as [_ Hr]. apply elem_of_app in Hr as [Hr|Hr].
    - rewrite Forall_forall in Hb. specialize (Hb r Hr). lia.
    - apply list_elem_of_singleton in Hr as ->. simpl. lia. }
  intros user. unfold stored_for, inserted_for in *. simpl.
  rewrite !filter_app, fmap_app.
  destruct (decide (ins_user i = user)) as [<-|Hne].
  - rewrite prune_same_user by done.
    rewrite filter_app. rewrite !(filter_cons_True _ _ []) by done.
    rewrite !filter_nil, last_n_fmap, fmap_app. simpl.
    rewrite (Hst (ins_user i)). apply last_n_snoc. lia.
  - rewrite prune_other_user by done.
    rewrite filter_app. rewrite !(filter_cons_False _ _ []) by done.
    rewrite !filter_nil, app_nil_r. simpl. rewrite app_nil_r. apply Hst.
Qed.
End MappingLog.


Lemma find_mapping_None user topic_msg rows :
  List.find (λ r, bool_decide (SentRow.user_id r = user
                               ∧ SentRow.topic_msg_id r = topic_msg)) rows = None
  ↔ ∀ m, (topic_msg, m) ∉ ((λ r, (SentRow.topic_msg_id r, SentRow.user_msg_id r))
                             <$> filter (λ r, SentRow.user_id r = user) rows).
Proof.
  induction rows as [|r rows IH]; simpl.
  - split; [|done]. intros _ m Hin. by apply elem_of_nil in Hin.
  - rewrite filter_cons. case_bool_decide as Hr.
    + destruct Hr as [Hu Ht]. rewrite decide_True by done. split; [done|].
      intros Hno. exfalso. apply (Hno (SentRow.user_msg_id r)).
      simpl. rewrite <- Ht. apply list_elem_of_here.
    + rewrite IH. case_decide as Hu; [|done]. simpl.
      split; intros Hno m Hin.
      * apply elem_of_cons in Hin as [Heq|Hin]; [|by apply (Hno m)].
        simplify_eq. by apply Hr.
      * apply (Hno m). by apply list_elem_of_further.
Qed.

Lemma get_user_msg_id_None user topic_msg db :
  get_user_msg_id user topic_msg db = None
  ↔ ∀ m, (topic_msg, m) ∉ stored_for user db.
Proof.
  unfold get_user_msg_id, stored_for. rewrite fmap_None. apply find_mapping_None.
Qed.

(** C9, as the code has it: after any sequence of [save_message_mapping]
    calls on an empty log, a user holds at most 100 mappings, namely the
    last 100 inserted for that user in insertion order, and
    [get_user_msg_id] returns [None] for a topic message id exactly when
    none of these surviving mappings carries it; so the lookup of a pruned
    entry finds nothing unless a surviving mapping of the same user has the
    same topic message id. *)
Theorem mapping_log_keeps_last_100 inserts user topic_msg :
  let db := save_all inserts init_db in
  let history := inserted_for user inserts in
  (length (filter (λ r, SentRow.user_id r = user) (sent_messages db)) ≤ 100)%nat
  ∧ stored_for user db = last_n 100 history
  ∧ (get_user_msg_id user topic_msg db = None
     ↔ ∀ m, (topic_msg, m) ∉ last_n 100 history).
Proof.
  intros db history.
  destruct (save_all_invariant inserts) as (_ & _ & Hst). fold db in Hst.
  split; [|split].
  - rewrite <- (length_fmap (λ r, (SentRow.topic_msg_id r, SentRow.user_msg_id r))).
    fold (stored_for user db). rewrite Hst. unfold last_n. rewrite length_drop. lia.
  - apply Hst.
  - rewrite get_user_msg_id_None. by rewrite Hst.
Qed.

(** C9 as stated fails when a topic message id is inserted again: of the
    101 mappings of [Ex.same_topic] the first, (1, 1), is pruned, and the
    lookup of its topic message id still finds a mapping. *)
Lemma pruned_topic_id_still_found :
  let db := save_all Ex.same_topic init_db in
  (1, 1) ∈ inserted_for Ex.user Ex.same_topic
  ∧ ((1, 1) ∉ stored_for Ex.user db)
  ∧ length (stored_for Ex.user db) = 100%nat
  ∧ get_user_msg_id Ex.user 1 db = Some 2.
Proof.
  split; [|split; [|split]].
  - apply (bool_decide_unpack _). vm_compute. exact I.
  - apply (bool_decide_unpack _). vm_compute. exact I.
  - vm_compute. reflexivity.
  - vm_compute. reflexivity.
Qed.

(** With distinct topic message ids the pruned entries are not found: of
    the 150 mappings of [Ex.many_replies] the first 50 are gone. *)
Example pruned_entries_not_found :
  let db := save_all Ex.many_replies init_db in
  get_user_msg_id Ex.user 50 db = None
  ∧ get_user_msg_id Ex.user 51 db = Some 1051
  ∧ get_user_msg_id Ex.user 150 db = Some 1150
  ∧ length (sent_messages db) = 100%nat.
Proof. vm_compute. repeat split. Qed.

(** * Further properties *)

(** ** Invariants of the conversation rows *)

(** A property of rows that the INSERT of [Chat.create] establishes and
    every UPDATE of the program preserves holds of every row of every
    reachable database. *)
Lemma reachable_row_invariant (P : ChatRow.t → Prop) :
  (∀ clk un fn ln tid, P (Chat.create_insert clk un fn ln tid)) →
  (∀ un fn ln tid r, P r → P (Chat.create_update un fn ln tid r)) →
  (∀ clk p ty r, P r → P (Chat.new_message_row clk p ty r)) →
  (∀ clk r, P r → P (Chat.mark_answered_row clk r)) →
  (∀ r, P r → P (Chat.mark_read_row r)) →
  (∀ r, P r → P (Chat.mark_unread_row r)) →
  (∀ p r, P r → P (Chat.set_priority_row p r)) →
  (∀ r, P r → P (Chat.archive_row r)) →
  (∀ t r, P r → P (Chat.snooze_row t r)) →
  (∀ r, P r → P (Chat.done_followup_row r)) →
  ∀ db, reachable db → ∀ u r, chats db !! u = Some r → P r.
Proof.
  intros Hins Hupd Hnew Hans Hread Hunread Hprio Harch Hsnooze Hdone db.
  induction 1 as [|op db Hreach IH]; intros u r Hr.
  - simpl in Hr. by rewrite lookup_empty in Hr.
  - destruct op; simpl in Hr;
      try snooze_cases_in Hr;
      try (by eapply IH);
      try (unfold Outbox.mark_failed in Hr;
           destruct (Outbox.delay_for _); simpl in Hr; [|by eapply IH];
           destruct (10 <=? _); simpl in Hr; by eapply IH);
      try (rewrite lookup_alter in Hr; case_decide as Hu; [subst|by eapply IH];
           destruct (chats db !! u) as [r0|] eqn:Hr0; simplify_eq/=;
           eauto).
    rewrite lookup_partial_alter in Hr. case_decide as Hu; [subst|by eapply IH].
    destruct (chats db !! u) as [r0|] eqn:Hr0; simplify_eq/=; eauto.
Qed.

(** X1: in every reachable database a conversation row has a non-negative
    [unread_count], 0/1 flags [is_archived] and [followup_done],
    [followup_stage] 0 (nothing ever advances it), one of the four statuses
    and a [last_message_at]. *)
Theorem reachable_row_ranges db u r :
  reachable db →
  chats db !! u = Some r →
  0 <= ChatRow.unread_count r
  ∧ (ChatRow.is_archived r = 0 ∨ ChatRow.is_archived r = 1)
  ∧ (ChatRow.followup_done r = 0 ∨ ChatRow.followup_done r = 1)
  ∧ ChatRow.followup_stage r = 0
  ∧ (ChatRow.status r = "unread" ∨ ChatRow.status r = "read"
     ∨ ChatRow.status r = "answered" ∨ ChatRow.status r = "closed")
  ∧ is_Some (ChatRow.last_message_at r).
Proof.
  intros Hreach Hr. revert db Hreach u r Hr.
  apply reachable_row_invariant; intros; simpl; destruct_and?;
    repeat split; eauto 6; try lia.
  - destruct (String.eqb _ _); eauto 6.
  - case_match; lia.
Qed.

Lemma reachable_row_ranges_witness :
  0 <= ChatRow.unread_count Ex.row_read
  ∧ (ChatRow.is_archived Ex.row_read = 0 ∨ ChatRow.is_archived Ex.row_read = 1)
  ∧ (ChatRow.followup_done Ex.row_read = 0 ∨ ChatRow.followup_done Ex.row_read = 1)
  ∧ ChatRow.followup_stage Ex.row_read = 0
  ∧ (ChatRow.status Ex.row_read = "unread" ∨ ChatRow.status Ex.row_read = "read"
     ∨ ChatRow.status Ex.row_read = "answered" ∨ ChatRow.status Ex.row_read = "closed")
  ∧ is_Some (ChatRow.last_message_at Ex.row_read).
Proof.
  apply (reachable_row_ranges Ex.db_read Ex.user Ex.row_read).
  - unfold Ex.db_read. repeat apply reachable_exec. apply reachable_init.
  - vm_compute. reflexivity.
Defined.

(** X2: in every reachable database a conversation that is 'read' or
    'answered' has [unread_count] 0, an 'answered' conversation has a
    [last_reply_at], and a 'closed' conversation is archived. *)
Theorem reachable_status_consistency db u r :
  reachable db →
  chats db !! u = Some r →
  (ChatRow.status r = "read" ∨ ChatRow.status r = "answered" → ChatRow.unread_count r = 0)
  ∧ (ChatRow.status r = "answered" → is_Some (ChatRow.last_reply_at r))
  ∧ (ChatRow.status r = "closed" → ChatRow.is_archived r = 1).
Proof.
  intros Hreach Hr. revert db Hreach u r Hr.
  apply reachable_row_invariant; intros; simpl in *; destruct_and?;
    repeat split; try (intros [?|?]); try intros ?; try done; eauto.
  all: destruct (String.eqb (ChatRow.status r) "unread") eqn:E; try done; eauto.
Qed.

Lemma reachable_status_consistency_witness :
  (ChatRow.status Ex.row_read = "read" ∨ ChatRow.status Ex.row_read = "answered"
   → ChatRow.unread_count Ex.row_read = 0)
  ∧ (ChatRow.status Ex.row_read = "answered" → is_Some (ChatRow.last_reply_at Ex.row_read))
  ∧ (ChatRow.status Ex.row_read = "closed" → ChatRow.is_archived Ex.row_read = 1).
Proof.
  apply (reachable_status_consistency Ex.db_read Ex.user Ex.row_read).
  - unfold Ex.db_read. repeat apply reachable_exec. apply reachable_init.
  - vm_compute. reflexivity.
Defined.

(** X3: no operation deletes a conversation, and only [Chat.create] adds
    one: the users with a row after an operation are those before it, plus
    the user of a [Chat.create]. *)
Theorem conversations_are_never_deleted op db :
  dom (chats (exec op db))
  = match op with
    | OpCreate _ u _ _ _ _ => {[u]} ∪ dom (chats db)
    | _ => dom (chats db)
    end.
Proof.
  destruct op; simpl; try snooze_cases_goal; try done; try apply dom_alter_L.
  - apply set_eq. intros v. rewrite elem_of_union, elem_of_singleton, !elem_of_dom.
    rewrite lookup_partial_alter. case_decide; subst.
    + destruct (chats db !! v); split; eauto.
    + split; [eauto|]. intros [?|?]; done.
  - unfold Outbox.mark_failed. destruct (Outbox.delay_for _); simpl; [|done].
    by destruct (10 <=? _).
Qed.

(** ** Orders of the queries *)

Section Orders.
Import Chat.

#[local] Instance ts_le_trans : Transitive ts_le.
Proof. intros [x|] [y|] [z|]; unfold ts_le; try done; lia. Qed.

#[local] Instance ts_le_total : Total ts_le.
Proof. intros [x|] [y|]; unfold ts_le; try tauto; lia. Qed.

#[export] Instance unread_order_trans : Transitive unread_order.
Proof.
  intros a b c [Hab|[Hab Hab']] [Hbc|[Hbc Hbc']]; unfold unread_order;
    try (left; lia).
  right. split; [lia|]. by etrans.
Qed.

#[export] Instance unread_order_total : Total unread_order.
Proof.
  intros a b. unfold unread_order.
  destruct (Z.lt_total (priority_rank (ChatRow.priority a.2))
                       (priority_rank (ChatRow.priority b.2))) as [?|[Heq|?]];
    [tauto| |tauto].
  destruct (ts_le_total (ChatRow.last_message_at a.2) (ChatRow.last_message_at b.2));
    [right|left]; right; split; done.
Qed.

#[export] Instance active_order_trans : Transitive active_order.
Proof. intros a b c ? ?. unfold active_order in *. by etrans. Qed.

#[export] Instance active_order_total : Total active_order.
Proof.
  intros a b. unfold active_order.
  destruct (ts_le_total (ChatRow.last_message_at a.2) (ChatRow.last_message_at b.2)); tauto.
Qed.

#[export] Instance followup_order_trans : Transitive followup_order.
Proof. intros a b c ? ?. unfold followup_order in *. by etrans. Qed.

#[export] Instance followup_order_total : Total followup_order.
Proof. intros a b. unfold followup_order. apply ts_le_total. Qed.

#[export] Instance rowid_order_trans : Transitive rowid_order.
Proof. intros a b c. unfold rowid_order. lia. Qed.

#[export] Instance rowid_order_total : Total rowid_order.
Proof. intros a b. unfold rowid_order. lia. Qed.

#[export] Instance pending_order_trans : Transitive Outbox.pending_order.
Proof. intros a b c. unfold Outbox.pending_order. lia. Qed.

#[export] Instance pending_order_total : Total Outbox.pending_order.
Proof. intros a b. unfold Outbox.pending_order. lia. Qed.
End Orders.




Lemma scan_elem db (c : ChatDict) : c ∈ Chat.scan db ↔ chats db !! c.1 = Some c.2.
Proof. unfold Chat.scan. by rewrite merge_sort_Permutation, elem_of_map_to_list'. Qed.

Lemma scan_NoDup db : NoDup (Chat.scan db).*1.
Proof.
  unfold Chat.scan. rewrite merge_sort_Permutation. apply NoDup_fst_map_to_list.
Qed.

(** ** Looking a conversation up by its topic *)

(** X4: [Chat.get_by_topic] returns [None] exactly when no conversation
    has the topic; a row it returns is a row of the table with that topic;
    and when one user only has the topic, it returns that user's row. *)
Theorem get_by_topic_finds_the_topic topic db :
  (Chat.get_by_topic topic db = None
   ↔ ∀ u r, chats db !! u = Some r → ChatRow.topic_id r ≠ topic)
  ∧ (∀ c, Chat.get_by_topic topic db = Some c →
       chats db !! c.1 = Some c.2 ∧ ChatRow.topic_id c.2 = topic)
  ∧ (∀ u r, chats db !! u = Some r → ChatRow.topic_id r = topic →
       (∀ v r', chats db !! v = Some r' → ChatRow.topic_id r' = topic → v = u) →
       Chat.get_by_topic topic db = Some (u, r)).
Proof.
  unfold Chat.get_by_topic.
  assert (∀ c, head (filter (λ c : ChatDict, ChatRow.topic_id c.2 = topic) (Chat.scan db))
               = Some c → chats db !! c.1 = Some c.2 ∧ ChatRow.topic_id c.2 = topic) as Hsome.
  { intros c Hc. apply head_Some_elem_of, list_elem_of_filter in Hc as [Ht Hc].
    by apply scan_elem in Hc. }
  split; [|split].
  - split.
    + intros Hnil u r Hr Ht. apply head_None in Hnil.
      apply (filter_nil_not_elem_of _ _ (u, r) Hnil); [done|]. by apply scan_elem.
    + intros Hno. destruct (head (filter _ _)) as [c|] eqn:E; [|done]. exfalso.
      destruct (Hsome c eq_refl) as [Hc Ht]. by apply (Hno c.1 c.2).
  - exact Hsome.
  - intros u r Hr Ht Huniq.
    destruct (head _) as [[v r']|] eqn:E.
    + destruct (Hsome _ eq_refl) as [Hv Hvt]. simpl in *.
      assert (v = u) as -> by by eapply Huniq. congruence.
    + exfalso. apply head_None in E.
      apply (filter_nil_not_elem_of _ _ (u, r) E); [done|]. by apply scan_elem.
Qed.

(** ** The inbox and the list of active conversations *)



(** ** Follow-up buckets *)



Lemma exec_keeps_followup_done u op db r :
  not_inbound_of u op →
  chats db !! u = Some r → ChatRow.followup_done r = 1 →
  ∃ r', chats (exec op db) !! u = Some r' ∧ ChatRow.followup_done r' = 1.
Proof.
  intros Hop Hr Hdone.
  destruct op; simpl in *.
  all: try snooze_cases_goal.
  all: try (unfold Outbox.mark_failed; destruct (Outbox.delay_for _); simpl;
            [destruct (10 <=? _); simpl|]).
  all: try (exists r; split; [exact Hr|exact Hdone]).
  all: try (rewrite lookup_alter; case_decide as Hv;
            [subst; rewrite Hr; simpl; eexists; split; [reflexivity|by simpl]
            |exists r; split; [exact Hr|exact Hdone]]).
  rewrite lookup_partial_alter. case_decide as Hv; [subst|by exists r].
  rewrite Hr. eexists. split; [reflexivity|by simpl].
Qed.

Lemma exec_all_keeps_followup_done u ops : ∀ db,
  Forall (not_inbound_of u) ops →
  (∃ r, chats db !! u = Some r ∧ ChatRow.followup_done r = 1) →
  ∃ r, chats (exec_all ops db) !! u = Some r ∧ ChatRow.followup_done r = 1.
Proof.
  induction ops as [|op ops IH]; intros db Hops Hdb; [done|].
  apply Forall_cons in Hops as [Hop Hops]. destruct Hdb as (r & Hr & Hdone).
  unfold exec_all. simpl. apply IH; [done|]. by eapply exec_keeps_followup_done.
Qed.

(** X8: once [Chat.done_followup] has marked an existing conversation,
    it is in no bucket of [Chat.get_followups_due] at any later time,
    whatever happens in between (further replies included), as long as no
    new message of that user is recorded. *)
Theorem done_followup_hides_until_next_message u ops db clk :
  is_Some (chats db !! u) →
  Forall (not_inbound_of u) ops →
  let res := Chat.get_followups_due clk (exec_all ops (Chat.done_followup u db)) in
  ∀ c : ChatDict, c ∈ Chat.due res ++ Chat.urgent res ++ Chat.overdue res → c.1 ≠ u.
Proof.
  intros [r0 Hr0] Hops res c Hc Hcu.
  assert (∃ r, chats (exec_all ops (Chat.done_followup u db)) !! u = Some r
               ∧ ChatRow.followup_done r = 1) as (r & Hr & Hdone).
  { apply exec_all_keeps_followup_done; [done|].
    eexists. split; [by apply lookup_alter_Some_eq|done]. }
  destruct (bucket_elem clk (exec_all ops (Chat.done_followup u db)) c)
    as (Hdue & Hurg & Hover).
  subst res. rewrite !elem_of_app, Hdue, Hurg, Hover in Hc.
  assert (Chat.followup_where c ∧
          chats (exec_all ops (Chat.done_followup u db)) !! c.1 = Some c.2)
    as [(_ & _ & Hnot & _) Hrow] by tauto.
  rewrite Hcu, Hr in Hrow. simplify_eq. lia.
Qed.

Lemma done_followup_hides_until_next_message_witness :
  chats Ex.db_answered !! Ex.user = Some Ex.row_answered
  ∧ (let res :=
       Chat.get_followups_due {| now := 1000 + timedelta_hours 100; current_timestamp := 2 |}
         (exec_all [OpMarkAnswered Ex.clk25h Ex.user; OpMarkRead Ex.user]
            (Chat.done_followup Ex.user Ex.db_answered)) in
     ∀ c : ChatDict, c ∈ Chat.due res ++ Chat.urgent res ++ Chat.overdue res → c.1 ≠ Ex.user).
Proof.
  split; [vm_compute; reflexivity|].
  apply (done_followup_hides_until_next_message Ex.user
           [OpMarkAnswered Ex.clk25h Ex.user; OpMarkRead Ex.user] Ex.db_answered).
  - exists Ex.row_answered. vm_compute. reflexivity.
  - repeat constructor.
Defined.

(** ** Fetching the outbox *)


(** ** Outbox entries of a reachable database *)

(** X10: in every reachable database the outbox keys are pairwise
    distinct and lie between 1 and the key sequence, and every entry has a
    non-negative [retry_count], a [next_retry_at], one of the statuses
    'pending', 'sent', 'failed', fewer than 10 retries while 'pending', at
    least 10 once 'failed', and an [error] exactly when it has failed at
    least once. *)
Theorem reachable_outbox_entry db e :
  reachable db →
  e ∈ outbox db →
  (1 <= OutboxRow.id e <= seq_outbox db)
  ∧ 0 <= OutboxRow.retry_count e
  ∧ is_Some (OutboxRow.next_retry_at e)
  ∧ (OutboxRow.status e = "pending" ∨ OutboxRow.status e = "sent"
     ∨ OutboxRow.status e = "failed")
  ∧ (OutboxRow.status e = "pending" → OutboxRow.retry_count e < 10)
  ∧ (OutboxRow.status e = "failed" → 10 <= OutboxRow.retry_count e)
  ∧ (OutboxRow.retry_count e = 0 ↔ OutboxRow.error e = None)
  ∧ (∀ e', e' ∈ outbox db → OutboxRow.id e' = OutboxRow.id e → e' = e).
Proof.
  intros Hreach He. destruct (reachable_outbox db Hreach) as (_ & Hs & Hall).
  rewrite Forall_forall in Hall. specialize (Hall e He). unfold entry_ok in Hall.
  destruct Hall as (? & ? & ? & ? & ? & ? & ?). repeat (split; [done|]).
  intros e' He' Hid. apply StronglySorted_lt_NoDup in Hs.
  pose proof (select_by_id_elem db e Hs He) as Hsel.
  pose proof (select_by_id_elem db e' Hs He') as Hsel'.
  rewrite Hid in Hsel'. congruence.
Qed.

(** X11: in a reachable database [Outbox.mark_failed] never raises: it
    returns a database with the same conversations and the same outbox
    keys, in which the entry with the given key has one more retry and the
    error recorded, and every other entry is as before. *)
Theorem mark_failed_succeeds_when_reachable db clk i err :
  reachable db →
  ∃ db', Outbox.mark_failed clk i err db = Some db'
    ∧ chats db' = chats db
    ∧ OutboxRow.id <$> outbox db' = OutboxRow.id <$> outbox db
    ∧ (∀ e, e ∈ outbox db → OutboxRow.id e ≠ i → e ∈ outbox db')
    ∧ (∀ e, e ∈ outbox db → OutboxRow.id e = i →
         ∃ e', e' ∈ outbox db' ∧ OutboxRow.id e' = i
               ∧ OutboxRow.retry_count e' = OutboxRow.retry_count e + 1
               ∧ OutboxRow.error e' = Some err).
Proof.
  intros Hreach. destruct (reachable_outbox db Hreach) as (_ & Hs & Hall).
  apply StronglySorted_lt_NoDup in Hs. rewrite Forall_forall in Hall.
  assert (1 <= Outbox.next_retry_count i db) as Hrc.
  { unfold Outbox.next_retry_count, Outbox.select_by_id.
    destruct (List.find _ _) as [row|] eqn:E; [|done].
    apply find_some in E as [Hin _]. apply list_elem_of_In in Hin.
    destruct (Hall row Hin) as (_ & ? & _). lia. }
  assert (∀ e, e ∈ outbox db → OutboxRow.id e = i →
            Outbox.next_retry_count i db = OutboxRow.retry_count e + 1) as Hn.
  { intros e He <-. unfold Outbox.next_retry_count.
    by rewrite (select_by_id_elem db e Hs He). }
  unfold Outbox.mark_failed. rewrite (delay_for_table _ Hrc). simpl.
  destruct (10 <=? _);
    match goal with |- ∃ _, Some (with_outbox (Outbox.update_where_id _ ?f) _) = _ ∧ _ =>
      destruct (update_where_id_effect db i f) as (? & ? & ? & Hf); [done|]
    end;
    eexists; (split; [reflexivity|]);
    (split; [done|]); (split; [done|]); (split; [done|]);
    intros e He Hid; eexists; (split; [by apply Hf|]); simpl;
    by rewrite (Hn e He Hid).
Qed.

(** X12: for a key that no outbox entry has, [Outbox.mark_sent] and
    [Outbox.mark_failed] change nothing (and the latter does not raise). *)
Theorem outbox_updates_ignore_unknown_id db clk i err :
  i ∉ OutboxRow.id <$> outbox db →
  Outbox.mark_sent i db = db ∧ Outbox.mark_failed clk i err db = Some db.
Proof.
  intros Hi.
  assert (∀ f, with_outbox (Outbox.update_where_id i f) db = db) as Hid.
  { intros f. destruct db. unfold with_outbox. simpl in *.
    by rewrite update_where_id_absent. }
  split; [apply Hid|].
  unfold Outbox.mark_failed, Outbox.next_retry_count.
  rewrite select_by_id_None by done. simpl. by rewrite Hid.
Qed.

Lemma reachable_outbox_entry_witness :
  (1 <= OutboxRow.id ExMore.entry1 <= seq_outbox ExMore.db_outbox)
  ∧ 0 <= OutboxRow.retry_count ExMore.entry1
  ∧ is_Some (OutboxRow.next_retry_at ExMore.entry1)
  ∧ (OutboxRow.status ExMore.entry1 = "pending" ∨ OutboxRow.status ExMore.entry1 = "sent"
     ∨ OutboxRow.status ExMore.entry1 = "failed")
  ∧ (OutboxRow.status ExMore.entry1 = "pending" → OutboxRow.retry_count ExMore.entry1 < 10)
  ∧ (OutboxRow.status ExMore.entry1 = "failed" → 10 <= OutboxRow.retry_count ExMore.entry1)
  ∧ (OutboxRow.retry_count ExMore.entry1 = 0 ↔ OutboxRow.error ExMore.entry1 = None)
  ∧ (∀ e', e' ∈ outbox ExMore.db_outbox →
       OutboxRow.id e' = OutboxRow.id ExMore.entry1 → e' = ExMore.entry1).
Proof.
  apply (reachable_outbox_entry ExMore.db_outbox ExMore.entry1).
  - apply reachable_exec_all, reachable_init.
  - vm_compute. apply list_elem_of_here.
Defined.

Lemma mark_failed_succeeds_when_reachable_witness :
  ∃ db', Outbox.mark_failed Ex.clk25h 1 "again" ExMore.db_outbox = Some db'
    ∧ chats db' = chats ExMore.db_outbox
    ∧ OutboxRow.id <$> outbox db' = OutboxRow.id <$> outbox ExMore.db_outbox
    ∧ (∀ e, e ∈ outbox ExMore.db_outbox → OutboxRow.id e ≠ 1 → e ∈ outbox db')
    ∧ (∀ e, e ∈ outbox ExMore.db_outbox → OutboxRow.id e = 1 →
         ∃ e', e' ∈ outbox db' ∧ OutboxRow.id e' = 1
               ∧ OutboxRow.retry_count e' = OutboxRow.retry_count e + 1
               ∧ OutboxRow.error e' = Some "again").
Proof.
  apply (mark_failed_succeeds_when_reachable ExMore.db_outbox Ex.clk25h 1 "again").
  apply reachable_exec_all, reachable_init.
Defined.

Lemma outbox_updates_ignore_unknown_id_witness :
  Outbox.mark_sent 3 ExMore.db_outbox = ExMore.db_outbox
  ∧ Outbox.mark_failed Ex.clk25h 3 "again" ExMore.db_outbox = Some ExMore.db_outbox.
Proof.
  apply (outbox_updates_ignore_unknown_id ExMore.db_outbox Ex.clk25h 3 "again").
  apply (bool_decide_unpack _). vm_compute. exact I.
Defined.

(** ** One tick of the drainer *)

Lemma set_sent_idem e : Outbox.set_sent (Outbox.set_sent e) = Outbox.set_sent e.
Proof. done. Qed.

Lemma process_items_all_sent w items : ∀ db,
  (∀ item, ∃ m, copy_message w item = Sent m) →
  outbox (process_items w items db)
  = (λ e, if decide (OutboxRow.id e ∈ OutboxRow.id <$> items)
          then Outbox.set_sent e else e) <$> outbox db.
Proof.
  induction items as [|item items IH]; intros db Hw.
  - simpl. symmetry. etrans; [|apply list_fmap_id].
    apply list_fmap_ext. by intros k e _.
  - simpl.
    assert (∃ m, (if String.eqb (OutboxRow.direction item) "to_topic"
                  then copy_message w item
                  else if String.eqb (OutboxRow.direction item) "to_user"
                       then copy_message w item else Sent 0) = Sent m) as [m ->].
    { destruct (Hw item) as [m Hm]. rewrite Hm. repeat case_match; by eexists. }
    rewrite IH by done. simpl. unfold Outbox.update_where_id.
    rewrite <- list_fmap_compose. apply list_fmap_ext. intros k e _. simpl.
    destruct (decide (OutboxRow.id e = OutboxRow.id item)) as [Heq|Hne].
    + rewrite (decide_True (P := _ ∈ _ :: _)) by (rewrite Heq; apply list_elem_of_here).
      by case_decide.
    + destruct (decide (OutboxRow.id e ∈ OutboxRow.id <$> items)) as [Hin|Hnin].
      * rewrite decide_True; [done|]. by apply list_elem_of_further.
      * rewrite decide_False; [done|]. intros Hc.
        apply elem_of_cons in Hc as [?|?]; done.
Qed.

(** X13: when every transport call of a tick succeeds,
    [job_process_outbox] marks exactly the fetched entries 'sent' and
    leaves every other entry and every other column as it was; no later
    tick fetches one of them again. *)
Theorem healthy_tick_marks_fetched_entries_sent clk w db :
  (∀ item, ∃ m, copy_message w item = Sent m) →
  let fetched := OutboxRow.id <$> Outbox.get_pending clk db in
  outbox (job_process_outbox clk w db)
  = (λ e, if decide (OutboxRow.id e ∈ fetched) then Outbox.set_sent e else e)
      <$> outbox db
  ∧ ∀ clk' e, e ∈ Outbox.get_pending clk' (job_process_outbox clk w db) →
      OutboxRow.id e ∉ fetched.
Proof.
  intros Hw fetched.
  assert (outbox (job_process_outbox clk w db)
          = (λ e, if decide (OutboxRow.id e ∈ fetched) then Outbox.set_sent e else e)
              <$> outbox db) as Hout.
  { unfold job_process_outbox. by apply process_items_all_sent. }
  split; [done|].
  intros clk' e He Hin.
  assert (OutboxRow.status e = "pending") as Hst by by eapply get_pending_pending.
  unfold Outbox.get_pending in He. apply subseteq_take in He.
  rewrite merge_sort_Permutation in He. apply list_elem_of_filter in He as [_ He].
  rewrite Hout in He. apply list_elem_of_fmap in He as (e0 & -> & _).
  case_decide; [done|]. done.
Qed.

Lemma healthy_tick_marks_fetched_entries_sent_witness :
  let fetched := OutboxRow.id <$> Outbox.get_pending Ex.clk25h ExMore.db_outbox in
  outbox (job_process_outbox Ex.clk25h Ex.world_ok ExMore.db_outbox)
  = (λ e, if decide (OutboxRow.id e ∈ fetched) then Outbox.set_sent e else e)
      <$> outbox ExMore.db_outbox
  ∧ ∀ clk' e,
      e ∈ Outbox.get_pending clk' (job_process_outbox Ex.clk25h Ex.world_ok ExMore.db_outbox) →
      OutboxRow.id e ∉ fetched.
Proof.
  apply (healthy_tick_marks_fetched_entries_sent Ex.clk25h Ex.world_ok ExMore.db_outbox).
  intros item. exists 77. reflexivity.
Defined.

Lemma process_items_confined w items : ∀ db,
  OutboxRow.id <$> outbox (process_items w items db) = OutboxRow.id <$> outbox db
  ∧ ∀ k e, outbox db !! k = Some e → OutboxRow.id e ∉ OutboxRow.id <$> items →
      outbox (process_items w items db) !! k = Some e.
Proof.
  induction items as [|item items IH]; intros db; [done|].
  assert (∀ f, (∀ r, OutboxRow.id (f r) = OutboxRow.id r) →
            let db' := with_outbox (Outbox.update_where_id (OutboxRow.id item) f) db in
            OutboxRow.id <$> outbox (process_items w items db') = OutboxRow.id <$> outbox db
            ∧ ∀ k e, outbox db !! k = Some e →
                OutboxRow.id e ∉ OutboxRow.id <$> item :: items →
                outbox (process_items w items db') !! k = Some e) as Hstep.
  { intros f Hf db'. destruct (IH db') as [Hids Hrest]. split.
    - rewrite Hids. subst db'. simpl. by apply update_where_id_ids.
    - intros k e Hk Hnot. simpl in Hnot. apply not_elem_of_cons in Hnot as [Hne Hnot].
      apply Hrest; [|done]. subst db'. simpl. unfold Outbox.update_where_id.
      rewrite list_lookup_fmap, Hk. simpl. by rewrite decide_False. }
  simpl. destruct (if String.eqb _ _ then _ else _) as [m|err].
  - by apply (Hstep Outbox.set_sent).
  - unfold Outbox.mark_failed. destruct (Outbox.delay_for _) as [d|]; simpl.
    + destruct (10 <=? _); by apply Hstep.
    + split; [done|]. by intros.
Qed.

(** X14: whatever the transport does, a tick of [job_process_outbox]
    neither adds nor removes outbox entries nor reorders them, and an entry
    it did not fetch is exactly as before. *)
Theorem tick_touches_only_fetched_entries clk w db :
  OutboxRow.id <$> outbox (job_process_outbox clk w db) = OutboxRow.id <$> outbox db
  ∧ ∀ k e, outbox db !! k = Some e →
      OutboxRow.id e ∉ OutboxRow.id <$> Outbox.get_pending clk db →
      outbox (job_process_outbox clk w db) !! k = Some e.
Proof. apply process_items_confined. Qed.

(** ** The mapping log in a reachable database *)

Lemma reachable_sent_messages db :
  reachable db →
  StronglySorted Z.lt (SentRow.id <$> sent_messages db)
  ∧ Forall (λ r, SentRow.id r <= seq_sent_messages db) (sent_messages db).
Proof.
  induction 1 as [|op db Hreach [Hs Hb]]; [split; constructor|].
  destruct op; simpl; try snooze_cases_goal; try done.
  - unfold Outbox.mark_failed. destruct (Outbox.delay_for _); simpl; [|done].
    by destruct (10 <=? _).
  - assert (StronglySorted Z.lt
              (SentRow.id <$> sent_messages db
                 ++ [SentRow.mk (seq_sent_messages db + 1) user_id topic_msg_id
                       user_msg_id (current_timestamp clk)])) as Hs'.
    { rewrite fmap_app. apply StronglySorted_app_2; [|done|repeat constructor].
      intros x1 x2 Hx1 Hx2. apply list_elem_of_fmap in Hx1 as (r & -> & Hr).
      rewrite Forall_forall in Hb. specialize (Hb r Hr).
      apply list_elem_of_singleton in Hx2 as ->. simpl. lia. }
    split; [by apply StronglySorted_filter_ids|].
    unfold prune. apply Forall_forall. intros r Hr.
    apply list_elem_of_filter in Hr as [_ Hr]. apply elem_of_app in Hr as [Hr|Hr].
    + rewrite Forall_forall in Hb. specialize (Hb r Hr). lia.
    + apply list_elem_of_singleton in Hr as ->. simpl. lia.
Qed.

(** What one insert does to the mappings of each user. *)
Lemma stored_for_save db clk user topic_msg user_msg :
  reachable db →
  stored_for user (save_message_mapping clk user topic_msg user_msg db)
  = last_n 100 (stored_for user db ++ [(topic_msg, user_msg)]).
Proof.
  intros Hreach. destruct (reachable_sent_messages db Hreach) as [Hs Hb].
  unfold stored_for, save_message_mapping. simpl.
  rewrite prune_same_user.
  - rewrite filter_app, (filter_cons_True _ _ []) by done.
    by rewrite filter_nil, last_n_fmap, fmap_app.
  - rewrite fmap_app. apply StronglySorted_app_2; [|done|repeat constructor].
    intros x1 x2 Hx1 Hx2. apply list_elem_of_fmap in Hx1 as (r & -> & Hr).
    rewrite Forall_forall in Hb. specialize (Hb r Hr).
    apply list_elem_of_singleton in Hx2 as ->. simpl. lia.
Qed.

Lemma stored_for_save_other db clk user other topic_msg user_msg :
  other ≠ user →
  stored_for other (save_message_mapping clk user topic_msg user_msg db)
  = stored_for other db.
Proof.
  intros Hne. unfold stored_for, save_message_mapping. simpl.
  rewrite prune_other_user by done.
  rewrite filter_app, (filter_cons_False _ _ []) by (simpl; congruence).
  by rewrite filter_nil, app_nil_r.
Qed.

(** The lookup reads the mappings of the user only: it is the first of
    them with the topic message id. *)
Lemma get_user_msg_id_stored user topic_msg db :
  get_user_msg_id user topic_msg db
  = snd <$> List.find (λ p : Z * Z, bool_decide (p.1 = topic_msg)) (stored_for user db).
Proof.
  unfold get_user_msg_id, stored_for.
  induction (sent_messages db) as [|r rows IH]; [done|].
  simpl. rewrite filter_cons.
  destruct (decide (SentRow.user_id r = user)) as [Hu|Hu]; simpl.
  - destruct (decide (SentRow.topic_msg_id r = topic_msg)) as [Ht|Ht].
    + by rewrite !bool_decide_eq_true_2.
    + rewrite !bool_decide_eq_false_2 by tauto. apply IH.
  - rewrite bool_decide_eq_false_2 by tauto. apply IH.
Qed.

Lemma find_snoc_fresh {A} (f : A → bool) (l : list A) x k :
  (k ≤ length l)%nat → (∀ y, y ∈ l → f y = false) → f x = true →
  List.find f (drop k (l ++ [x])) = Some x.
Proof.
  intros Hk Hl Hx. rewrite drop_app_le by done.
  assert (∀ y, y ∈ drop k l → f y = false) as Hd.
  { intros y Hy. apply Hl. by apply subseteq_drop in Hy. }
  induction (drop k l) as [|y l' IH]; simpl; [by rewrite Hx|].
  rewrite Hd by apply list_elem_of_here. apply IH.
  intros z Hz. apply Hd. by apply list_elem_of_further.
Qed.

(** X15: in a reachable database, after
    [save_message_mapping(user, t, m)] the lookup of [t] for that user
    finds a mapping, and it finds [m] when the user had no mapping for [t]
    before; the new mapping is always among the stored ones. *)
Theorem saved_mapping_is_found db clk user topic_msg user_msg :
  reachable db →
  let db' := save_message_mapping clk user topic_msg user_msg db in
  (topic_msg, user_msg) ∈ stored_for user db'
  ∧ is_Some (get_user_msg_id user topic_msg db')
  ∧ (get_user_msg_id user topic_msg db = None →
     get_user_msg_id user topic_msg db' = Some user_msg).
Proof.
  intros Hreach db'.
  assert (stored_for user db'
          = last_n 100 (stored_for user db ++ [(topic_msg, user_msg)])) as Hst
    by by apply stored_for_save.
  assert ((topic_msg, user_msg) ∈ stored_for user db') as Hin.
  { rewrite Hst. unfold last_n. rewrite length_app. simpl.
    rewrite drop_app_le by lia. apply elem_of_app. right. apply list_elem_of_here. }
  split; [done|]. split.
  - destruct (get_user_msg_id user topic_msg db') eqn:E; [by eexists|].
    exfalso. rewrite get_user_msg_id_None in E. by apply (E user_msg).
  - intros Hnone. rewrite get_user_msg_id_stored, Hst. unfold last_n.
    rewrite (find_snoc_fresh _ _ (topic_msg, user_msg)); [done| | |].
    + rewrite length_app. simpl. lia.
    + intros [t m] Hy. simpl. apply bool_decide_eq_false_2. intros ->.
      rewrite get_user_msg_id_None in Hnone. by apply (Hnone m).
    + by apply bool_decide_eq_true_2.
Qed.

Lemma saved_mapping_is_found_witness :
  let db' := save_message_mapping Ex.clk25h Ex.user 901 6 Ex.db_read in
  (901, 6) ∈ stored_for Ex.user db'
  ∧ is_Some (get_user_msg_id Ex.user 901 db')
  ∧ (get_user_msg_id Ex.user 901 Ex.db_read = None →
     get_user_msg_id Ex.user 901 db' = Some 6).
Proof.
  apply (saved_mapping_is_found Ex.db_read Ex.clk25h Ex.user 901 6).
  unfold Ex.db_read. repeat apply reachable_exec. apply reachable_init.
Defined.

(** X16: [save_message_mapping] for one user changes no lookup of any
    other user. *)
Theorem saved_mapping_leaves_other_users db clk user other topic_msg user_msg t :
  other ≠ user →
  get_user_msg_id other t (save_message_mapping clk user topic_msg user_msg db)
  = get_user_msg_id other t db.
Proof.
  intros Hne. by rewrite !get_user_msg_id_stored, stored_for_save_other.
Qed.

Lemma saved_mapping_leaves_other_users_witness :
  get_user_msg_id Ex.user 900 (save_message_mapping Ex.clk25h 8 900 6 Ex.db_answered)
  = get_user_msg_id Ex.user 900 Ex.db_answered.
Proof.
  apply (saved_mapping_leaves_other_users Ex.db_answered Ex.clk25h 8 Ex.user 900 6 900).
  unfold Ex.user. lia.
Defined.

(** ** Loops that update the fetched conversations *)

Section FetchedThenUpdated.
Variable f : ChatRow.t → ChatRow.t.
Hypothesis f_idem : ∀ r, f (f r) = f r.

(** Updating every conversation of a list with an idempotent row update. *)
Lemma foldl_alter_lookup (l : list ChatDict) : ∀ db u,
  chats (foldl (λ d c, with_chats (alter f c.1) d) db l) !! u
  = if decide (u ∈ l.*1) then f <$> chats db !! u else chats db !! u.
Proof.
  induction l as [|c l IH]; intros db u; simpl.
  - done.
  - rewrite IH. simpl. rewrite lookup_alter.
    destruct (decide (u ∈ l.*1)) as [Hin|Hnin].
    + rewrite (decide_True (P := u ∈ _ :: _)) by by apply list_elem_of_further.
      case_decide as Hc; [|done]. rewrite <- Hc.
      destruct (chats db !! c.1); simpl; [|done]. by rewrite f_idem.
    + case_decide as Hc.
      * rewrite <- Hc.
        by rewrite (decide_True (P := _ ∈ _ :: _)) by apply list_elem_of_here.
      * rewrite (decide_False (P := _ ∈ _ :: _)); [done|].
        intros Hu. apply elem_of_cons in Hu as [?|?]; done.
Qed.

Lemma foldl_alter_frame (l : list ChatDict) : ∀ db,
  messages (foldl (λ d c, with_chats (alter f c.1) d) db l) = messages db
  ∧ outbox (foldl (λ d c, with_chats (alter f c.1) d) db l) = outbox db
  ∧ sent_messages (foldl (λ d c, with_chats (alter f c.1) d) db l) = sent_messages db.
Proof.
  induction l as [|c l IH]; intros db; [done|]. simpl.
  destruct (IH (with_chats (alter f c.1) db)) as (-> & -> & ->). done.
Qed.

End FetchedThenUpdated.

Lemma filter_none {A} (P : A → Prop) `{!∀ x, Decision (P x)} (l : list A) :
  (∀ x, x ∈ l → ¬ P x) → filter P l = [].
Proof.
  induction l as [|x l IH]; intros Hl; [done|].
  rewrite filter_cons_False by (apply Hl, list_elem_of_here).
  apply IH. intros y Hy. by apply Hl, list_elem_of_further.
Qed.




Lemma selected_then_updated (f : ChatRow.t → ChatRow.t) (P : ChatDict → Prop)
    `{!∀ c, Decision (P c)} (l : list ChatDict) db u :
  (∀ r, f (f r) = f r) →
  (∀ c : ChatDict, c ∈ l ↔ P c ∧ chats db !! c.1 = Some c.2) →
  chats (foldl (λ d c, with_chats (alter f c.1) d) db l) !! u
  = (λ r, if decide (P (u, r)) then f r else r) <$> chats db !! u.
Proof.
  intros Hf Hl. rewrite foldl_alter_lookup by done.
  destruct (chats db !! u) as [r|] eqn:Hr; simpl.
  - destruct (decide (P (u, r))) as [HP|HP].
    + rewrite decide_True; [done|]. apply list_elem_of_fmap. exists (u, r).
      split; [done|]. by apply Hl.
    + rewrite decide_False; [done|]. intros Hin.
      apply list_elem_of_fmap in Hin as ([v r'] & -> & Hin).
      apply Hl in Hin as [HP' Hin]. simpl in *. by simplify_eq.
  - by case_decide.
Qed.

Lemma get_unread_elem clk db (c : ChatDict) :
  c ∈ Chat.get_unread clk db
  ↔ Chat.unread_where (now clk) c ∧ chats db !! c.1 = Some c.2.
Proof.
  unfold Chat.get_unread.
  by rewrite merge_sort_Permutation, list_elem_of_filter, elem_of_map_to_list'.
Qed.

Lemma inbox_readall_lookup clk db u :
  chats (inbox_readall clk db) !! u
  = (λ r, if decide (Chat.unread_where (now clk) (u, r)) then Chat.mark_read_row r else r)
      <$> chats db !! u.
Proof.
  unfold inbox_readall.
  apply (selected_then_updated Chat.mark_read_row (Chat.unread_where (now clk)));
    [apply mark_read_row_idem|apply get_unread_elem].
Qed.

(** X18: the "mark all read" button ([inbox:readall]) sets every
    conversation listed by [Chat.get_unread] to 'read' with [unread_count]
    0 and touches nothing else (snoozed and archived conversations keep
    their state); right afterwards the inbox is empty. *)
Theorem inbox_readall_empties_the_inbox clk db :
  let db' := inbox_readall clk db in
  (∀ c : ChatDict, c ∈ Chat.get_unread clk db →
     ∃ r', chats db' !! c.1 = Some r'
           ∧ ChatRow.status r' = "read" ∧ ChatRow.unread_count r' = 0
           ∧ ChatRow.priority r' = ChatRow.priority c.2
           ∧ ChatRow.snoozed_until r' = ChatRow.snoozed_until c.2
           ∧ ChatRow.followup_done r' = ChatRow.followup_done c.2)
  ∧ (∀ u r, chats db !! u = Some r → (u, r) ∉ Chat.get_unread clk db →
       chats db' !! u = Some r)
  ∧ (∀ u, chats db !! u = None → chats db' !! u = None)
  ∧ messages db' = messages db ∧ outbox db' = outbox db
  ∧ sent_messages db' = sent_messages db
  ∧ Chat.get_unread clk db' = [].
Proof.
  intros db'. split; [|split; [|split; [|split; [|split; [|split]]]]].
  - intros c Hc. apply get_unread_elem in Hc as [Hw Hr].
    exists (Chat.mark_read_row c.2). subst db'.
    rewrite inbox_readall_lookup, Hr. simpl.
    rewrite decide_True by by destruct c.
    destruct Hw as (Hst & _). split; [done|]. simpl. by rewrite Hst.
  - intros u r Hr Hnot. subst db'. rewrite inbox_readall_lookup, Hr. simpl.
    rewrite decide_False; [done|]. intros Hw. apply Hnot. by apply get_unread_elem.
  - intros u Hu. subst db'. by rewrite inbox_readall_lookup, Hu.
  - apply (foldl_alter_frame Chat.mark_read_row).
  - apply (foldl_alter_frame Chat.mark_read_row).
  - apply (foldl_alter_frame Chat.mark_read_row).
  - unfold Chat.get_unread. rewrite filter_none; [done|].
    intros [u r] Hc Hw. apply elem_of_map_to_list in Hc.
    subst db'. rewrite inbox_readall_lookup in Hc.
    destruct (chats db !! u) as [r0|] eqn:Hr0; simplify_eq/=.
    destruct (decide (Chat.unread_where (now clk) (u, r0))) as [Hsel|Hsel].
    + destruct Hw as (Hst & _). simpl in Hst.
      destruct Hsel as (Hst0 & _). simpl in Hst0. by rewrite Hst0 in Hst.
    + done.
Qed.

(** ** Priority toggles *)



(** ** Snooze and the inbox *)


(** The skip button snoozes for 72 hours; an operator who types
    [/snooze 99999999999] gets the exception and the conversation stays in
    the inbox. *)
Example snooze_examples :
  is_Some (Chat.snooze Ex.clk25h Ex.user 72 Ex.db_unread)
  ∧ Chat.snooze Ex.clk25h Ex.user 99999999999 Ex.db_unread = None
  ∧ exec (OpSnooze Ex.clk25h Ex.user 99999999999) Ex.db_unread = Ex.db_unread
  ∧ (Chat.get_unread Ex.clk25h Ex.db_unread).*1 = [Ex.user].
Proof. vm_compute. repeat split. by eexists. Qed.

(** ** Incoming user messages *)

Lemma handle_user_private w upd user msg db :
  chat_type upd = Some "private" → effective_user upd = Some user →
  message upd = Some msg → recording w = false →
  handle_user w upd db
  = let chat := Chat.get (User.id user) db in
    if match chat with
       | None => true
       | Some c => negb (ChatRow.is_archived c.2 =? 0)
       end
    then match create_topic (first_topic w) (first_topic_clk w) user db with
         | None => Escaped db
         | Some (db1, _) =>
             match welcome w with
             | Some false => Escaped db1
             | _ => relay_with_retry w user msg (Chat.get (User.id user) db1) db1
             end
         end
    else relay_with_retry w user msg chat db.
Proof. intros Hty Hu Hm Hrec. unfold handle_user. by rewrite Hty, Hu, Hm, Hrec. Qed.

Lemma get_after_create clk u un fn ln tid db :
  Chat.get u (Chat.create clk u un fn ln tid db)
  = Some (u, match chats db !! u with
             | None => Chat.create_insert clk un fn ln tid
             | Some r => Chat.create_update un fn ln tid r
             end).
Proof.
  unfold Chat.get, Chat.create. simpl. rewrite lookup_partial_alter_eq.
  by destruct (chats db !! u).
Qed.

(** What a relay does to the tables when it succeeds, and when it fails. *)
Lemma forward_to_topic_cases tr clk msg topic_id user_id db :
  (∃ m ct, tr = Sent m ∧ content_type msg = Some ct
     ∧ forward_to_topic tr clk msg topic_id user_id db
       = (Chat.new_message clk user_id (py_prefix 100 (preview_of msg ct))
            (or_else ct "unknown")
            (log_msg clk user_id "in" (or_else ct "unknown")
               (py_prefix 100 (preview_of msg ct)) "" (Some m) db), true))
  ∨ (((∃ err, tr = Raised err) ∨ content_type msg = None)
     ∧ forward_to_topic tr clk msg topic_id user_id db
       = (Outbox.add clk "to_topic" (chat_id msg) SUPPORT_GROUP_ID (message_id msg)
            (Some topic_id) db, false)).
Proof.
  unfold forward_to_topic. destruct tr as [m|err].
  - destruct (content_type msg) as [ct|] eqn:E; [left; by eauto|right; by eauto].
  - right. by eauto.
Qed.

(** X21: for a user whose conversation exists and is not archived,
    [handle_user] never loses the message.  If the first copy to the topic
    succeeds and [msg] has a [content_type], the handler returns with the
    message logged and the conversation 'unread' with one more unread
    message, on the same topic and with the outbox as it was.  Otherwise,
    so whenever the copy raises and always for a message of the transport
    library, a pending 'to_topic' outbox entry for the message and the
    conversation's topic is stored, whatever the later transport calls of
    the handler do. *)
Theorem handle_user_relays_or_queues w upd user msg db r :
  chat_type upd = Some "private" → effective_user upd = Some user →
  message upd = Some msg → recording w = false →
  chats db !! User.id user = Some r → ChatRow.is_archived r = 0 →
  let db' := final_db (handle_user w upd db) in
  (∃ m ct r', first_copy w = Sent m ∧ content_type msg = Some ct
     ∧ handle_user w upd db = Returned db'
     ∧ chats db' !! User.id user = Some r'
     ∧ ChatRow.status r' = "unread"
     ∧ ChatRow.unread_count r' = ChatRow.unread_count r + 1
     ∧ ChatRow.topic_id r' = ChatRow.topic_id r
     ∧ length (messages db') = S (length (messages db))
     ∧ outbox db' = outbox db)
  ∨ (((∃ err, first_copy w = Raised err) ∨ content_type msg = None)
     ∧ ∃ e rest, outbox db' = outbox db ++ e :: rest
         ∧ OutboxRow.status e = "pending"
         ∧ OutboxRow.direction e = "to_topic"
         ∧ OutboxRow.from_chat_id e = chat_id msg
         ∧ OutboxRow.message_id e = message_id msg
         ∧ OutboxRow.topic_id e = Some (ChatRow.topic_id r)).
Proof.
  intros Hty Hu Hm Hrec Hr Harch db'. subst db'.
  rewrite (handle_user_private w upd user msg db) by done.
  assert (Chat.get (User.id user) db = Some (User.id user, r)) as ->
    by (unfold Chat.get; by rewrite Hr).
  simpl. rewrite Harch. simpl. unfold relay_with_retry. simpl.
  destruct (forward_to_topic_cases (first_copy w) (first_copy_clk w) msg
              (ChatRow.topic_id r) (User.id user) db)
    as [(m & ct & Hcopy & Hct & ->)|[Hfail ->]].
  - left. exists m, ct. eexists. split; [done|]. split; [done|]. split; [done|].
    unfold Chat.new_message, log_msg. simpl.
    split; [by apply lookup_alter_Some_eq|]. simpl.
    repeat split. by rewrite length_app, Nat.add_1_r.
  - right. split; [exact Hfail|]. eexists.
    unfold create_topic. destruct (second_topic w) as [t2|]; simpl.
    + rewrite get_after_create. simpl.
      destruct (forward_to_topic_cases (second_copy w) (second_copy_clk w) msg
                  (ChatRow.topic_id
                     (match chats db !! User.id user with
                      | Some r0 => Chat.create_update (or_else (User.username user) "")
                                     (or_else (User.first_name user) "")
                                     (or_else (User.last_name user) "") t2 r0
                      | None => Chat.create_insert (second_topic_clk w)
                                  (or_else (User.username user) "")
                                  (or_else (User.first_name user) "")
                                  (or_else (User.last_name user) "") t2
                      end)) (User.id user)
                  (Chat.create (second_topic_clk w) (User.id user)
                     (or_else (User.username user) "")
                     (or_else (User.first_name user) "")
                     (or_else (User.last_name user) "") t2
                     (Outbox.add (first_copy_clk w) "to_topic" (chat_id msg)
                        SUPPORT_GROUP_ID (message_id msg)
                        (Some (ChatRow.topic_id r)) db)))
        as [(m2 & ct2 & _ & _ & ->)|[_ ->]]; simpl.
      * exists []. repeat split.
      * eexists [_]. rewrite <- app_assoc. repeat split.
    + exists []. repeat split.
Qed.

(** [handle_user] from the first relay on, for a conversation that
    exists: the relay succeeds, or the message is queued for the old topic,
    the topic is created anew and the relay is tried once more. *)
Lemma relay_with_retry_existing w user msg db r :
  chats db !! User.id user = Some r →
  relay_with_retry w user msg (Some (User.id user, r)) db
  = match first_copy w, content_type msg with
    | Sent m, Some ct =>
        Returned (Chat.new_message (first_copy_clk w) (User.id user)
                    (py_prefix 100 (preview_of msg ct)) (or_else ct "unknown")
                    (log_msg (first_copy_clk w) (User.id user) "in" (or_else ct "unknown")
                       (py_prefix 100 (preview_of msg ct)) "" (Some m) db))
    | _, _ =>
        let db1 := Outbox.add (first_copy_clk w) "to_topic" (chat_id msg) SUPPORT_GROUP_ID
                     (message_id msg) (Some (ChatRow.topic_id r)) db in
        match second_topic w with
        | None => Escaped db1
        | Some t2 =>
            let db2 := Chat.create (second_topic_clk w) (User.id user)
                         (or_else (User.username user) "")
                         (or_else (User.first_name user) "")
                         (or_else (User.last_name user) "") t2 db1 in
            match second_copy w, content_type msg with
            | Sent m2, Some ct =>
                Returned (Chat.new_message (second_copy_clk w) (User.id user)
                            (py_prefix 100 (preview_of msg ct)) (or_else ct "unknown")
                            (log_msg (second_copy_clk w) (User.id user) "in"
                               (or_else ct "unknown")
                               (py_prefix 100 (preview_of msg ct)) "" (Some m2) db2))
            | _, _ =>
                Returned (Outbox.add (second_copy_clk w) "to_topic" (chat_id msg)
                            SUPPORT_GROUP_ID (message_id msg) (Some t2) db2)
            end
        end
    end.
Proof.
  intros Hr. unfold relay_with_retry, forward_to_topic, create_topic. simpl.
  destruct (first_copy w) as [m|err], (content_type msg) as [ct|]; simpl; try done.
  all: destruct (second_topic w) as [t2|]; simpl; [|done].
  all: rewrite get_after_create; simpl; rewrite Hr; simpl.
  all: by destruct (second_copy w).
Qed.

(** X22: the first message of a user without a conversation.  When
    [create_forum_topic] raises, the exception leaves [handle_user] and
    nothing is written.  When the topic is created but the welcome reply
    raises, the conversation row exists and the message is neither logged
    nor queued.  When both succeed, a message of the transport library (no
    [content_type]) is never logged, whatever the copies return: it is
    queued for the new topic, a second topic is created, it is queued for
    that one too, and the handler returns with the conversation 'unread'
    on the second topic with [unread_count] 1.  A message that has a
    [content_type] and is copied at once leaves a 'normal', 'unread',
    unarchived conversation on the new topic with [unread_count] 1, one
    logged message and an unchanged outbox. *)
Theorem handle_user_first_contact w upd user msg db :
  chat_type upd = Some "private" → effective_user upd = Some user →
  message upd = Some msg → recording w = false →
  chats db !! User.id user = None →
  (first_topic w = None → handle_user w upd db = Escaped db)
  ∧ (∀ t, first_topic w = Some t → welcome w = Some false →
       ∃ db1, handle_user w upd db = Escaped db1
         ∧ is_Some (chats db1 !! User.id user)
         ∧ messages db1 = messages db ∧ outbox db1 = outbox db)
  ∧ (∀ t t2, first_topic w = Some t → welcome w ≠ Some false →
       content_type msg = None → second_topic w = Some t2 →
       ∃ db' r' e1 e2, handle_user w upd db = Returned db'
         ∧ chats db' !! User.id user = Some r'
         ∧ ChatRow.status r' = "unread" ∧ ChatRow.unread_count r' = 1
         ∧ ChatRow.topic_id r' = t2 ∧ ChatRow.is_archived r' = 0
         ∧ messages db' = messages db
         ∧ outbox db' = outbox db ++ [e1; e2]
         ∧ (OutboxRow.status e1, OutboxRow.direction e1, OutboxRow.message_id e1,
            OutboxRow.topic_id e1)
           = ("pending", "to_topic", message_id msg, Some t)
         ∧ (OutboxRow.status e2, OutboxRow.direction e2, OutboxRow.message_id e2,
            OutboxRow.topic_id e2)
           = ("pending", "to_topic", message_id msg, Some t2))
  ∧ (∀ t m ct, first_topic w = Some t → welcome w ≠ Some false →
       first_copy w = Sent m → content_type msg = Some ct →
       ∃ db' r', handle_user w upd db = Returned db'
         ∧ chats db' !! User.id user = Some r'
         ∧ ChatRow.status r' = "unread" ∧ ChatRow.unread_count r' = 1
         ∧ ChatRow.topic_id r' = t ∧ ChatRow.is_archived r' = 0
         ∧ ChatRow.priority r' = "normal"
         ∧ length (messages db') = S (length (messages db))
         ∧ outbox db' = outbox db).
Proof.
  intros Hty Hu Hm Hrec Hnone.
  rewrite (handle_user_private w upd user msg db) by done.
  assert (Chat.get (User.id user) db = None) as ->
    by (unfold Chat.get; by rewrite Hnone).
  simpl. unfold create_topic.
  assert (∀ t (k : Handled), welcome w ≠ Some false →
            match welcome w with
            | Some false =>
                Escaped (Chat.create (first_topic_clk w) (User.id user)
                           (or_else (User.username user) "")
                           (or_else (User.first_name user) "")
                           (or_else (User.last_name user) "") t db)
            | _ => k
            end = k) as Hwelcome.
  { intros t k Hw. by destruct (welcome w) as [[]|]. }
  split; [by intros ->|]. split; [|split].
  - intros t -> ->. eexists. split; [done|]. simpl.
    rewrite lookup_partial_alter_eq, Hnone. by eauto.
  - intros t t2 -> Hw Hct Ht2. rewrite Hwelcome by done.
    rewrite get_after_create, Hnone.
    rewrite relay_with_retry_existing
      by (simpl; by rewrite lookup_partial_alter_eq, Hnone).
    rewrite Hct, Ht2.
    assert (∀ A (x : A), match first_copy w with Sent _ => x | Raised _ => x end = x)
      as -> by (intros; by destruct (first_copy w)).
    assert (∀ A (x : A), match second_copy w with Sent _ => x | Raised _ => x end = x)
      as -> by (intros; by destruct (second_copy w)).
    unfold Chat.create, Outbox.add. simpl.
    eexists _, _, _, _. split; [done|]. simpl.
    split; [by rewrite !lookup_partial_alter_eq, Hnone|]. simpl.
    repeat (split; [done|]). split; [by rewrite <- app_assoc|]. done.
  - intros t m ct -> Hw Hcopy Hct. rewrite Hwelcome by done.
    rewrite get_after_create, Hnone.
    rewrite relay_with_retry_existing
      by (simpl; by rewrite lookup_partial_alter_eq, Hnone).
    rewrite Hcopy, Hct.
    unfold Chat.new_message, log_msg, Chat.create. simpl.
    eexists _, _. split; [done|]. simpl. split.
    + apply lookup_alter_Some_eq. by rewrite lookup_partial_alter_eq, Hnone.
    + simpl. repeat split. by rewrite length_app, Nat.add_1_r.
Qed.

(** X23: a message of a user whose conversation is archived reactivates
    it, once the new topic is created and the welcome reply is sent.  For a
    message of the transport library (no [content_type]) and a second topic
    created, the handler returns with the conversation unarchived,
    'unread', on the second topic, with [unread_count] 1, priority,
    [last_reply_at], snooze and follow-up marker kept, nothing logged and
    the message queued once per topic; it is listed by [Chat.get_unread]
    exactly when its old snooze has elapsed.  For a message that has a
    [content_type] and is copied at once, the conversation is on the first
    new topic with [unread_count] 2 (1 from the reactivation, 1 from the
    relayed message), snooze and follow-up marker cleared, and it is
    listed by [Chat.get_unread]. *)
Theorem handle_user_reactivates_archived w upd user msg db r t clk :
  chat_type upd = Some "private" → effective_user upd = Some user →
  message upd = Some msg → recording w = false →
  chats db !! User.id user = Some r → ChatRow.is_archived r ≠ 0 →
  first_topic w = Some t → welcome w ≠ Some false →
  (∀ t2, content_type msg = None → second_topic w = Some t2 →
     ∃ db' r' e1 e2, handle_user w upd db = Returned db'
       ∧ chats db' !! User.id user = Some r'
       ∧ ChatRow.is_archived r' = 0 ∧ ChatRow.status r' = "unread"
       ∧ ChatRow.topic_id r' = t2 ∧ ChatRow.unread_count r' = 1
       ∧ ChatRow.priority r' = ChatRow.priority r
       ∧ ChatRow.last_reply_at r' = ChatRow.last_reply_at r
       ∧ ChatRow.snoozed_until r' = ChatRow.snoozed_until r
       ∧ ChatRow.followup_done r' = ChatRow.followup_done r
       ∧ messages db' = messages db
       ∧ outbox db' = outbox db ++ [e1; e2]
       ∧ (OutboxRow.status e1, OutboxRow.message_id e1, OutboxRow.topic_id e1)
         = ("pending", message_id msg, Some t)
       ∧ (OutboxRow.status e2, OutboxRow.message_id e2, OutboxRow.topic_id e2)
         = ("pending", message_id msg, Some t2)
       ∧ ((User.id user, r') ∈ Chat.get_unread clk db'
          ↔ match ChatRow.snoozed_until r with Some s => s < now clk | None => True end))
  ∧ (∀ m ct, first_copy w = Sent m → content_type msg = Some ct →
     ∃ db' r', handle_user w upd db = Returned db'
       ∧ chats db' !! User.id user = Some r'
       ∧ ChatRow.is_archived r' = 0 ∧ ChatRow.status r' = "unread"
       ∧ ChatRow.topic_id r' = t ∧ ChatRow.unread_count r' = 2
       ∧ ChatRow.priority r' = ChatRow.priority r
       ∧ ChatRow.last_reply_at r' = ChatRow.last_reply_at r
       ∧ ChatRow.snoozed_until r' = None ∧ ChatRow.followup_done r' = 0
       ∧ (User.id user, r') ∈ Chat.get_unread clk db').
Proof.
  intros Hty Hu Hm Hrec Hr Harch Ht Hw.
  rewrite (handle_user_private w upd user msg db) by done.
  assert (Chat.get (User.id user) db = Some (User.id user, r)) as ->
    by (unfold Chat.get; by rewrite Hr).
  simpl. rewrite (proj2 (Z.eqb_neq _ _) Harch). simpl.
  unfold create_topic. rewrite Ht, get_after_create, Hr.
  assert (∀ k : Handled, match welcome w with Some false => Escaped
            (Chat.create (first_topic_clk w) (User.id user)
               (or_else (User.username user) "") (or_else (User.first_name user) "")
               (or_else (User.last_name user) "") t db) | _ => k end = k) as ->.
  { intros k. by destruct (welcome w) as [[]|]. }
  rewrite relay_with_retry_existing
    by (simpl; by rewrite lookup_partial_alter_eq, Hr).
  split.
  - intros t2 Hct Ht2. rewrite Hct, Ht2.
    assert (∀ A (x : A), match first_copy w with Sent _ => x | Raised _ => x end = x)
      as -> by (intros; by destruct (first_copy w)).
    assert (∀ A (x : A), match second_copy w with Sent _ => x | Raised _ => x end = x)
      as -> by (intros; by destruct (second_copy w)).
    unfold Chat.create, Outbox.add. simpl.
    eexists _, _, _, _. split; [done|]. simpl.
    split; [by rewrite !lookup_partial_alter_eq, Hr|]. simpl.
    repeat (split; [done|]). split; [by rewrite <- app_assoc|].
    split; [done|]. split; [done|].
    rewrite get_unread_elem. simpl. rewrite !lookup_partial_alter_eq, Hr. simpl.
    unfold Chat.unread_where, Chat.snooze_elapsed. simpl. tauto.
  - intros m ct Hcopy Hct. rewrite Hcopy, Hct.
    unfold Chat.new_message, log_msg, Chat.create. simpl.
    eexists _, _. split; [done|]. simpl.
    assert (alter (Chat.new_message_row (first_copy_clk w)
                     (py_prefix 100 (preview_of msg ct)) (or_else ct "unknown"))
              (User.id user)
              (partial_alter
                 (λ o, match o with
                       | Some r0 => Some (Chat.create_update (or_else (User.username user) "")
                                            (or_else (User.first_name user) "")
                                            (or_else (User.last_name user) "") t r0)
                       | None => Some (Chat.create_insert (first_topic_clk w)
                                         (or_else (User.username user) "")
                                         (or_else (User.first_name user) "")
                                         (or_else (User.last_name user) "") t)
                       end) (User.id user) (chats db)) !! User.id user
            = Some (Chat.new_message_row (first_copy_clk w)
                      (py_prefix 100 (preview_of msg ct)) (or_else ct "unknown")
                      (Chat.create_update (or_else (User.username user) "")
                         (or_else (User.first_name user) "")
                         (or_else (User.last_name user) "") t r))) as Hrow.
    { apply lookup_alter_Some_eq. by rewrite lookup_partial_alter_eq, Hr. }
    split; [exact Hrow|]. simpl. repeat (split; [done|]).
    apply get_unread_elem. split; [by repeat split|exact Hrow].
Qed.

Lemma handle_user_existing w upd user msg db r :
  chat_type upd = Some "private" → effective_user upd = Some user →
  message upd = Some msg → recording w = false →
  chats db !! User.id user = Some r → ChatRow.is_archived r = 0 →
  handle_user w upd db = relay_with_retry w user msg (Some (User.id user, r)) db.
Proof.
  intros Hty Hu Hm Hrec Hr Harch.
  rewrite (handle_user_private w upd user msg db) by done.
  assert (Chat.get (User.id user) db = Some (User.id user, r)) as ->
    by (unfold Chat.get; by rewrite Hr).
  simpl. by rewrite Harch.
Qed.

(** X24: the recovery path of [handle_user] for an existing, unarchived
    conversation: the first relay fails (the copy raises, or [msg] has no
    [content_type]) and the topic is created anew.  The handler returns;
    the conversation has moved to the new topic and is 'unread', and a
    pending outbox entry for the old topic is stored.  If the second copy
    succeeds and [msg] has a [content_type], [unread_count] is 2 and the
    message is logged once; otherwise [unread_count] is 1, nothing is
    logged and a second pending entry for the same message is stored, for
    the new topic. *)
Theorem handle_user_recovery_path w upd user msg db r t2 :
  chat_type upd = Some "private" → effective_user upd = Some user →
  message upd = Some msg → recording w = false →
  chats db !! User.id user = Some r → ChatRow.is_archived r = 0 →
  (forward_to_topic (first_copy w) (first_copy_clk w) msg (ChatRow.topic_id r)
     (User.id user) db).2 = false →
  second_topic w = Some t2 →
  ∃ db' r' e1, handle_user w upd db = Returned db'
    ∧ chats db' !! User.id user = Some r'
    ∧ ChatRow.topic_id r' = t2 ∧ ChatRow.status r' = "unread"
    ∧ ChatRow.is_archived r' = 0
    ∧ OutboxRow.status e1 = "pending"
    ∧ OutboxRow.message_id e1 = message_id msg
    ∧ OutboxRow.topic_id e1 = Some (ChatRow.topic_id r)
    ∧ match second_copy w, content_type msg with
      | Sent _, Some _ =>
          ChatRow.unread_count r' = 2
          ∧ length (messages db') = S (length (messages db))
          ∧ outbox db' = outbox db ++ [e1]
      | _, _ =>
          ChatRow.unread_count r' = 1
          ∧ messages db' = messages db
          ∧ ∃ e2, outbox db' = outbox db ++ [e1; e2]
                  ∧ OutboxRow.status e2 = "pending"
                  ∧ OutboxRow.message_id e2 = message_id msg
                  ∧ OutboxRow.topic_id e2 = Some t2
      end.
Proof.
  intros Hty Hu Hm Hrec Hr Harch Hfail Ht2.
  rewrite (handle_user_existing w upd user msg db r) by done.
  rewrite relay_with_retry_existing by done. rewrite Ht2.
  unfold forward_to_topic in Hfail.
  assert (∀ (f : Z → option string → Handled) (y : Handled),
            match first_copy w with
            | Sent m => match content_type msg with Some ct => f m ct | None => y end
            | Raised _ => y
            end = y) as ->.
  { intros f y. destruct (first_copy w), (content_type msg); simpl in Hfail; done. }
  simpl.
  destruct (second_copy w) as [m2|err2], (content_type msg) as [ct|]; simpl.
  - unfold Chat.new_message, log_msg, Chat.create, Outbox.add. simpl.
    match goal with
    | |- context [outbox db ++ [?a]] => eexists _, _, a
    end.
    split; [done|]. simpl. split.
    { apply lookup_alter_Some_eq. by rewrite lookup_partial_alter_eq, Hr. }
    simpl. repeat (split; [done|]). split; [|done].
    by rewrite length_app, Nat.add_1_r.
  - unfold Chat.create, Outbox.add. simpl.
    match goal with
    | |- context [(outbox db ++ [?a]) ++ [?b]] => eexists _, _, a
    end.
    split; [done|]. simpl. split.
    { by rewrite lookup_partial_alter_eq, Hr. }
    simpl. repeat (split; [done|]). eexists. rewrite <- app_assoc. by repeat split.
  - unfold Chat.create, Outbox.add. simpl.
    match goal with
    | |- context [(outbox db ++ [?a]) ++ [?b]] => eexists _, _, a
    end.
    split; [done|]. simpl. split.
    { by rewrite lookup_partial_alter_eq, Hr. }
    simpl. repeat (split; [done|]). eexists. rewrite <- app_assoc. by repeat split.
  - unfold Chat.create, Outbox.add. simpl.
    match goal with
    | |- context [(outbox db ++ [?a]) ++ [?b]] => eexists _, _, a
    end.
    split; [done|]. simpl. split.
    { by rewrite lookup_partial_alter_eq, Hr. }
    simpl. repeat (split; [done|]). eexists. rewrite <- app_assoc. by repeat split.
Qed.

(** The witnesses below run the handler on a message of the transport
    library with every transport call succeeding. *)
Lemma handle_user_relays_or_queues_witness :
  let db' := final_db (handle_user ExMore.world_up ExMore.private_update Ex.db_unread) in
  (∃ m ct r', first_copy ExMore.world_up = Sent m
     ∧ content_type ExMore.library_msg = Some ct
     ∧ handle_user ExMore.world_up ExMore.private_update Ex.db_unread = Returned db'
     ∧ chats db' !! User.id ExMore.alice = Some r'
     ∧ ChatRow.status r' = "unread"
     ∧ ChatRow.unread_count r' = ChatRow.unread_count Ex.row_unread + 1
     ∧ ChatRow.topic_id r' = ChatRow.topic_id Ex.row_unread
     ∧ length (messages db') = S (length (messages Ex.db_unread))
     ∧ outbox db' = outbox Ex.db_unread)
  ∨ (((∃ err, first_copy ExMore.world_up = Raised err)
      ∨ content_type ExMore.library_msg = None)
     ∧ ∃ e rest, outbox db' = outbox Ex.db_unread ++ e :: rest
         ∧ OutboxRow.status e = "pending"
         ∧ OutboxRow.direction e = "to_topic"
         ∧ OutboxRow.from_chat_id e = chat_id ExMore.library_msg
         ∧ OutboxRow.message_id e = message_id ExMore.library_msg
         ∧ OutboxRow.topic_id e = Some (ChatRow.topic_id Ex.row_unread)).
Proof.
  apply (handle_user_relays_or_queues ExMore.world_up ExMore.private_update
           ExMore.alice ExMore.library_msg Ex.db_unread Ex.row_unread);
    reflexivity.
Defined.

Lemma handle_user_first_contact_witness :
  ∃ db' r' e1 e2,
    handle_user ExMore.world_up ExMore.private_update init_db = Returned db'
    ∧ chats db' !! Ex.user = Some r'
    ∧ ChatRow.status r' = "unread" ∧ ChatRow.unread_count r' = 1
    ∧ ChatRow.topic_id r' = 61 ∧ ChatRow.is_archived r' = 0
    ∧ messages db' = []
    ∧ outbox db' = [e1; e2]
    ∧ (OutboxRow.status e1, OutboxRow.direction e1, OutboxRow.message_id e1,
       OutboxRow.topic_id e1)
      = ("pending", "to_topic", 42, Some 60)
    ∧ (OutboxRow.status e2, OutboxRow.direction e2, OutboxRow.message_id e2,
       OutboxRow.topic_id e2)
      = ("pending", "to_topic", 42, Some 61).
Proof.
  destruct (handle_user_first_contact ExMore.world_up ExMore.private_update
              ExMore.alice ExMore.library_msg init_db) as (_ & _ & H & _);
    try reflexivity.
  apply (H 60 61); try reflexivity. discriminate.
Defined.

Lemma handle_user_reactivates_archived_witness :
  (∀ t2, content_type ExMore.library_msg = None → second_topic ExMore.world_up = Some t2 →
     ∃ db' r' e1 e2,
       handle_user ExMore.world_up ExMore.private_update ExMore.db_archived = Returned db'
       ∧ chats db' !! Ex.user = Some r'
       ∧ ChatRow.is_archived r' = 0 ∧ ChatRow.status r' = "unread"
       ∧ ChatRow.topic_id r' = t2 ∧ ChatRow.unread_count r' = 1
       ∧ ChatRow.priority r' = ChatRow.priority ExMore.row_archived
       ∧ ChatRow.last_reply_at r' = ChatRow.last_reply_at ExMore.row_archived
       ∧ ChatRow.snoozed_until r' = ChatRow.snoozed_until ExMore.row_archived
       ∧ ChatRow.followup_done r' = ChatRow.followup_done ExMore.row_archived
       ∧ messages db' = messages ExMore.db_archived
       ∧ outbox db' = outbox ExMore.db_archived ++ [e1; e2]
       ∧ (OutboxRow.status e1, OutboxRow.message_id e1, OutboxRow.topic_id e1)
         = ("pending", message_id ExMore.library_msg, Some 60)
       ∧ (OutboxRow.status e2, OutboxRow.message_id e2, OutboxRow.topic_id e2)
         = ("pending", message_id ExMore.library_msg, Some t2)
       ∧ ((Ex.user, r') ∈ Chat.get_unread Ex.clk25h db'
          ↔ match ChatRow.snoozed_until ExMore.row_archived with
            | Some s => s < now Ex.clk25h
            | None => True
            end))
  ∧ (∀ m ct, first_copy ExMore.world_up = Sent m →
     content_type ExMore.library_msg = Some ct →
     ∃ db' r',
       handle_user ExMore.world_up ExMore.private_update ExMore.db_archived = Returned db'
       ∧ chats db' !! Ex.user = Some r'
       ∧ ChatRow.is_archived r' = 0 ∧ ChatRow.status r' = "unread"
       ∧ ChatRow.topic_id r' = 60 ∧ ChatRow.unread_count r' = 2
       ∧ ChatRow.priority r' = ChatRow.priority ExMore.row_archived
       ∧ ChatRow.last_reply_at r' = ChatRow.last_reply_at ExMore.row_archived
       ∧ ChatRow.snoozed_until r' = None ∧ ChatRow.followup_done r' = 0
       ∧ (Ex.user, r') ∈ Chat.get_unread Ex.clk25h db').
Proof.
  apply (handle_user_reactivates_archived ExMore.world_up ExMore.private_update
           ExMore.alice ExMore.library_msg ExMore.db_archived ExMore.row_archived 60
           Ex.clk25h);
    try reflexivity; discriminate.
Defined.

Lemma handle_user_recovery_path_witness :
  ∃ db' r' e1,
    handle_user ExMore.world_up ExMore.private_update Ex.db_unread = Returned db'
    ∧ chats db' !! Ex.user = Some r'
    ∧ ChatRow.topic_id r' = 61 ∧ ChatRow.status r' = "unread"
    ∧ ChatRow.is_archived r' = 0
    ∧ OutboxRow.status e1 = "pending"
    ∧ OutboxRow.message_id e1 = 42
    ∧ OutboxRow.topic_id e1 = Some Ex.topic
    ∧ ChatRow.unread_count r' = 1
    ∧ messages db' = messages Ex.db_unread
    ∧ ∃ e2, outbox db' = outbox Ex.db_unread ++ [e1; e2]
            ∧ OutboxRow.status e2 = "pending"
            ∧ OutboxRow.message_id e2 = 42
            ∧ OutboxRow.topic_id e2 = Some 61.
Proof.
  apply (handle_user_recovery_path ExMore.world_up ExMore.private_update
           ExMore.alice ExMore.library_msg Ex.db_unread Ex.row_unread 61);
    reflexivity.
Defined.

(** With an object that has a [content_type]: the first copy raises, the
    topic is created anew and the second copy succeeds. *)
Example recovery_with_content_type :
  (λ db', (ChatRow.topic_id <$> chats db' !! Ex.user,
           ChatRow.unread_count <$> chats db' !! Ex.user,
           length (messages db'),
           (λ e, (OutboxRow.status e, OutboxRow.topic_id e)) <$> outbox db'))
    (final_db (handle_user ExMore.world_topic_gone ExMore.object_update Ex.db_unread))
  = (Some 61, Some 2, 2%nat, [("pending", Some Ex.topic)]).
Proof. vm_compute. reflexivity. Qed.
